(** * The toast notification manager (hooks/use-toast)

    A shallow embedding of the module that holds the toast store: the id
    generator, the registry of removal timers, the reducer, [dispatch], the
    [toast] facade with its [dismiss]/[update] handles, and the host's timer
    table on which [setTimeout]/[clearTimeout] act.

    Module-level variables ([count], [toastTimeouts], [memoryState],
    [listeners]) and the host's pending timers are the fields of [World];
    functions of the module that read or write them are computations in the
    state monad [M]. *)

From stdpp Require Import gmap strings list pretty.

(** ** Data model *)

(** [setTimeout] returns a positive integer id: such a handle is truthy, which
    is what [removeFromRemoveQueue] tests with [if (timeout)]. *)
Definition handle := positive.

(** Identity of a JS object.  Toast objects are never assigned to after they
    are built, so an object is its identity together with its properties. *)
Definition ref := positive.

(** A subscriber: the [setState] function of one mounted [useToast]. *)
Definition listener := nat.

(** The [onOpenChange] callback of a toast: the closure wired by [toast]
    ([(open) => { if (!open) dismiss() }], for the toast of the given id), or
    any other function supplied from outside the module. *)
Inductive Handler :=
  | DismissWhenClosed (toastId : string)
  | External (tag : nat).

(** Own properties of a toast object ([ToasterToast]).  [None] is [undefined].
    React nodes and elements are opaque to the module; they are strings here.
    [duration] is in milliseconds. *)
Record Props := mkProps {
  id : string;
  title : option string;
  description : option string;
  action : option string;
  duration : option Z;
  open : option bool;
  variant : option string;
  onOpenChange : option Handler;
}.

(** A toast object. *)
Record ToasterToast := mkObj {
  obj : ref;
  props : Props;
}.

(** [Partial<ToasterToast>] without its [id]: for each key, [None] when the
    key is absent and [Some v] when it is present with value [v] (which may
    itself be [undefined]). *)
Record Partial := mkPartial {
  p_title : option (option string);
  p_description : option (option string);
  p_action : option (option string);
  p_duration : option (option Z);
  p_open : option (option bool);
  p_variant : option (option string);
  p_onOpenChange : option (option Handler);
}.

(** [Toast = Omit<ToasterToast, "id">], the argument of the facade. *)
Record Toast := mkToast {
  t_title : option string;
  t_description : option string;
  t_action : option string;
  t_duration : option Z;
  t_open : option bool;
  t_variant : option string;
  t_onOpenChange : option Handler;
}.

(** The toast of [UPDATE_TOAST] is [Partial<ToasterToast> & { id: string }]:
    its id, and the keys it has besides. *)
Inductive Action :=
  | ADD_TOAST (toast : ToasterToast)
  | UPDATE_TOAST (toastId : string) (toast : Partial)
  | DISMISS_TOAST (toastId : option string)
  | REMOVE_TOAST (toastId : option string)
  | CLEAR_ALL_TOASTS.

Record State := mkState {
  toasts : list ToasterToast;
}.

Definition TOAST_LIMIT : nat := 5.
Definition TOAST_REMOVE_DELAY : Z := 5000.
Definition MAX_SAFE_INTEGER : Z := 2 ^ 53 - 1.

(** ** The world: module variables and the host's timers *)

Record World := mkWorld {
  count : Z;
  toastTimeouts : gmap string handle;
  memoryState : State;
  listeners : list listener;
  (** pending [setTimeout] callbacks: the delay, and the [toastId] captured by
      the callback (every callback of this module is the one built in
      [addToRemoveQueue]) *)
  timers : gmap handle (Z * string);
  next_handle : handle;
  next_ref : ref;
  (** calls made to the listeners, oldest first *)
  rendered : list (listener * State);
}.

Definition set_count (c : Z) (w : World) : World :=
  mkWorld c (toastTimeouts w) (memoryState w) (listeners w)
          (timers w) (next_handle w) (next_ref w) (rendered w).
Definition set_toastTimeouts (m : gmap string handle) (w : World) : World :=
  mkWorld (count w) m (memoryState w) (listeners w)
          (timers w) (next_handle w) (next_ref w) (rendered w).
Definition set_memoryState (s : State) (w : World) : World :=
  mkWorld (count w) (toastTimeouts w) s (listeners w)
          (timers w) (next_handle w) (next_ref w) (rendered w).
Definition set_listeners (l : list listener) (w : World) : World :=
  mkWorld (count w) (toastTimeouts w) (memoryState w) l
          (timers w) (next_handle w) (next_ref w) (rendered w).
Definition set_timers (t : gmap handle (Z * string)) (w : World) : World :=
  mkWorld (count w) (toastTimeouts w) (memoryState w) (listeners w)
          t (next_handle w) (next_ref w) (rendered w).
Definition set_next_handle (h : handle) (w : World) : World :=
  mkWorld (count w) (toastTimeouts w) (memoryState w) (listeners w)
          (timers w) h (next_ref w) (rendered w).
Definition set_next_ref (r : ref) (w : World) : World :=
  mkWorld (count w) (toastTimeouts w) (memoryState w) (listeners w)
          (timers w) (next_handle w) r (rendered w).
Definition set_rendered (l : list (listener * State)) (w : World) : World :=
  mkWorld (count w) (toastTimeouts w) (memoryState w) (listeners w)
          (timers w) (next_handle w) (next_ref w) l.

(** The module right after it is loaded. *)
Definition init : World :=
  mkWorld 0 ∅ (mkState []) [] ∅ 1%positive 1%positive [].

(** ** The state monad *)

Definition M (A : Type) : Type := World → A * World.

Global Instance M_ret : MRet M := λ A a w, (a, w).
Global Instance M_bind : MBind M := λ A B f m w, f (m w).1 (m w).2.

Definition gets {A} (f : World → A) : M A := λ w, (f w, w).
Definition modify (f : World → World) : M unit := λ w, (tt, f w).

(** [l.forEach(f)] *)
Fixpoint forEach {A} (f : A → M unit) (l : list A) : M unit :=
  match l with
  | [] => mret tt
  | x :: l => f x;; forEach f l
  end.

(** ** Host operations *)

Definition setTimeout (toastId : string) (delay : Z) : M handle :=
  h ← gets next_handle;
  ts ← gets timers;
  modify (set_timers (<[h := (delay, toastId)]> ts));;
  modify (set_next_handle (Pos.succ h));;
  mret h.

Definition clearTimeout (h : handle) : M unit :=
  ts ← gets timers;
  modify (set_timers (delete h ts)).

(** Evaluating an object literal builds a new object. *)
Definition new (p : Props) : M ToasterToast :=
  r ← gets next_ref;
  modify (set_next_ref (Pos.succ r));;
  mret (mkObj r p).

(** ** The module *)

(** [count] is an integer below [2 ^ 53], where the arithmetic of JS numbers is
    exact; [%] is the remainder of the truncated division, [Z.rem], and
    [toString] of such an integer is its decimal notation. *)
Definition genId : M string :=
  c ← gets count;
  let c' := Z.rem (c + 1) MAX_SAFE_INTEGER in
  modify (set_count c');;
  mret (pretty c').

Definition addToRemoveQueue (toastId : string) (duration : option Z) : M unit :=
  reg ← gets toastTimeouts;
  match reg !! toastId with
  | Some h => clearTimeout h
  | None => mret tt
  end;;
  let delay := default TOAST_REMOVE_DELAY duration in
  timeout ← setTimeout toastId delay;
  reg ← gets toastTimeouts;
  modify (set_toastTimeouts (<[toastId := timeout]> reg)).

Definition removeFromRemoveQueue (toastId : string) : M unit :=
  reg ← gets toastTimeouts;
  match reg !! toastId with
  | Some timeout =>
      clearTimeout timeout;;
      reg ← gets toastTimeouts;
      modify (set_toastTimeouts (delete toastId reg))
  | None => mret tt
  end.

(** [{ ...t, ...action.toast }], where [action.toast] is the partial toast [p]
    with the id [toastId]. *)
Definition spread (t : Props) (toastId : string) (p : Partial) : Props :=
  {| id := toastId;
     title := default (title t) (p_title p);
     description := default (description t) (p_description p);
     action := default (action t) (p_action p);
     duration := default (duration t) (p_duration p);
     open := default (open t) (p_open p);
     variant := default (variant t) (p_variant p);
     onOpenChange := default (onOpenChange t) (p_onOpenChange p) |}.

(** [{ ...t, open: false }] *)
Definition closed (t : Props) : Props :=
  {| id := id t; title := title t; description := description t;
     action := action t; duration := duration t; open := Some false;
     variant := variant t; onOpenChange := onOpenChange t |}.

(** [toastTimeouts.forEach((timeout) => clearTimeout(timeout))] *)
Definition clearAllTimeouts : M unit :=
  reg ← gets toastTimeouts;
  ts ← gets timers;
  modify (set_timers (map_fold (λ _ timeout acc, delete timeout acc) ts reg)).

(** The truthiness of an optional string: [undefined] and the empty string are
    falsy. *)
Definition truthy (s : option string) : bool :=
  match s with
  | Some s => negb (String.eqb s "")
  | None => false
  end.

(** The five cases of the [switch]; no other action type exists. *)
Definition reducer (state : State) (a : Action) : M State :=
  match a with
  | ADD_TOAST toast =>
      mret (mkState (take TOAST_LIMIT (toast :: toasts state)))
  | UPDATE_TOAST toastId p =>
      ts ← mapM (λ t, if String.eqb (id (props t)) toastId
                      then new (spread (props t) toastId p)
                      else mret t) (toasts state);
      mret (mkState ts)
  | DISMISS_TOAST toastId =>
      let scheduleAll :=
        forEach (λ toast, addToRemoveQueue (id (props toast))
                                           (duration (props toast)))
                (toasts state) in
      match toastId with
      | Some i => if truthy toastId then addToRemoveQueue i None
                  else scheduleAll
      | None => scheduleAll
      end;;
      ts ← mapM (λ t, match toastId with
                      | Some i => if String.eqb (id (props t)) i
                                  then new (closed (props t))
                                  else mret t
                      | None => new (closed (props t))
                      end) (toasts state);
      mret (mkState ts)
  | REMOVE_TOAST toastId =>
      match toastId with
      | None => mret (mkState [])
      | Some i =>
          mret (mkState (filter (λ t, id (props t) ≠ i) (toasts state)))
      end
  | CLEAR_ALL_TOASTS =>
      clearAllTimeouts;;
      modify (set_toastTimeouts ∅);;
      mret (mkState [])
  end.

(** [listeners.forEach((listener) => listener(memoryState))] *)
Definition notify (l : listener) : M unit :=
  s ← gets memoryState;
  log ← gets rendered;
  modify (set_rendered (log ++ [(l, s)])).

Definition dispatch (a : Action) : M unit :=
  s ← gets memoryState;
  s' ← reducer s a;
  modify (set_memoryState s');;
  ls ← gets listeners;
  forEach notify ls.

(** The handle returned by [toast] is its [id] with the two closures
    [toast_update id] and [toast_dismiss id]. *)
Definition toast_update (i : string) (p : Partial) : M unit :=
  dispatch (UPDATE_TOAST i p).

Definition toast_dismiss (i : string) : M unit :=
  removeFromRemoveQueue i;;
  dispatch (DISMISS_TOAST (Some i)).

Definition toast (t : Toast) : M string :=
  i ← genId;
  o ← new {| id := i; title := t_title t; description := t_description t;
             action := t_action t; duration := t_duration t;
             open := Some true; variant := t_variant t;
             onOpenChange := Some (DismissWhenClosed i) |};
  dispatch (ADD_TOAST o);;
  (if bool_decide (t_duration t ≠ Some 0%Z)
   then addToRemoveQueue i (t_duration t)
   else mret tt);;
  mret i.

Definition with_variant (v : string) (t : Toast) : Toast :=
  mkToast (t_title t) (t_description t) (t_action t) (t_duration t)
          (t_open t) (Some v) (t_onOpenChange t).
Definition with_duration (d : Z) (t : Toast) : Toast :=
  mkToast (t_title t) (t_description t) (t_action t) (Some d)
          (t_open t) (t_variant t) (t_onOpenChange t).

Definition toastSuccess (t : Toast) : M string :=
  toast (with_variant "default" t).
Definition toastError (t : Toast) : M string :=
  toast (with_duration 0 (with_variant "destructive" t)).
Definition toastWarning (t : Toast) : M string :=
  toast (with_duration 7000 (with_variant "default" t)).
Definition toastInfo (t : Toast) : M string :=
  toast (with_variant "default" t).

(** The rendering layer calling a toast's [onOpenChange].  A function supplied
    from outside is no part of the module: what it does is not modelled. *)
Definition call_onOpenChange (h : Handler) (o : bool) : M unit :=
  match h with
  | DismissWhenClosed i => if o then mret tt else toast_dismiss i
  | External _ => mret tt
  end.

(** [useToast().dismiss] and [useToast().clearAll] *)
Definition useToast_dismiss (toastId : option string) : M unit :=
  match toastId with
  | Some i => if truthy toastId then removeFromRemoveQueue i else mret tt
  | None => mret tt
  end;;
  dispatch (DISMISS_TOAST toastId).

Definition useToast_clearAll : M unit :=
  dispatch CLEAR_ALL_TOASTS.

(** The effect of [useToast]: subscribe on mount, and on unmount remove the
    first registration of the same function
    ([listeners.splice(listeners.indexOf(setState), 1)]). *)
Definition subscribe (l : listener) : M unit :=
  ls ← gets listeners;
  modify (set_listeners (ls ++ [l])).

Fixpoint remove_first (l : listener) (ls : list listener) : list listener :=
  match ls with
  | [] => []
  | x :: ls => if decide (x = l) then ls else x :: remove_first l ls
  end.

Definition unsubscribe (l : listener) : M unit :=
  ls ← gets listeners;
  modify (set_listeners (remove_first l ls)).

Definition cleanup : M unit :=
  clearAllTimeouts;;
  modify (set_toastTimeouts ∅);;
  modify (set_memoryState (mkState []));;
  modify (set_listeners []).

(** The host running the callback of the pending timer [h]: the timer leaves
    the host's table, and the callback built in [addToRemoveQueue] runs. *)
Definition fire (h : handle) : M unit :=
  ts ← gets timers;
  match ts !! h with
  | Some (_, toastId) =>
      modify (set_timers (delete h ts));;
      reg ← gets toastTimeouts;
      modify (set_toastTimeouts (delete toastId reg));;
      dispatch (REMOVE_TOAST (Some toastId))
  | None => mret tt
  end.

(** ** Runs *)

(** What can happen to the module, one event at a time.  The last event is a
    call of the exported [reducer] from outside, on any state, whose result
    is not stored. *)
Inductive Event :=
  | Dispatch (a : Action)
  | Fire (h : handle)
  | CallToast (t : Toast)
  | CallUpdate (i : string) (p : Partial)
  | CallDismiss (i : string)
  | HookDismiss (toastId : option string)
  | HookClearAll
  | OpenChange (h : Handler) (o : bool)
  | Subscribe (l : listener)
  | Unsubscribe (l : listener)
  | Cleanup
  | CallReducer (state : State) (a : Action).

Definition step (e : Event) : M unit :=
  match e with
  | Dispatch a => dispatch a
  | Fire h => fire h
  | CallToast t => toast t;; mret tt
  | CallUpdate i p => toast_update i p
  | CallDismiss i => toast_dismiss i
  | HookDismiss toastId => useToast_dismiss toastId
  | HookClearAll => useToast_clearAll
  | OpenChange h o => call_onOpenChange h o
  | Subscribe l => subscribe l
  | Unsubscribe l => unsubscribe l
  | Cleanup => cleanup
  | CallReducer state a => reducer state a;; mret tt
  end.

Definition run (es : list Event) (w : World) : World :=
  (forEach step es w).2.

(** A sequence of actions applied through the reducer alone, each to the state
    the one before returned. *)
Fixpoint reduce (state : State) (acts : list Action) : M State :=
  match acts with
  | [] => mret state
  | a :: acts => s ← reducer state a; reduce s acts
  end.

(** * Vocabulary of the statements *)

(** ** Effects of a computation *)

(** A computation that at most builds new objects: the world it leaves differs
    from the one it found in the next free object identity only. *)
Definition allocates_only {A} (m : M A) : Prop :=
  ∀ w, ∃ r, (m w).2 = set_next_ref r w.

(** A computation that leaves one variable of the world, or any function of
    the world, as it found it. *)
Definition keeps {A B} (proj : World → B) (m : M A) : Prop :=
  ∀ w, proj (m w).2 = proj w.

(** ** The list before and after an action *)

(** How [UPDATE_TOAST] and [DISMISS_TOAST] relate an element of the old list
    to the element at the same position of the new one.  A toast the callback
    of [map] returns as it is stays the same object; a matching toast is
    replaced by a new object with the given properties. *)
Definition updated (i : string) (p : Partial) (t t' : ToasterToast) : Prop :=
  if String.eqb (id (props t)) i
  then props t' = spread (props t) i p
  else t' = t.

Definition dismissed (toastId : option string) (t t' : ToasterToast) : Prop :=
  match toastId with
  | Some i => if String.eqb (id (props t)) i
              then props t' = closed (props t)
              else t' = t
  | None => props t' = closed (props t)
  end.

(** The partial toast [{ title: X }]. *)
Definition only_title (X : string) : Partial :=
  mkPartial (Some (Some X)) None None None None None None.

(** ** Invariants *)

Definition preserves {A} (P : World → Prop) (m : M A) : Prop :=
  ∀ w, P w → P (m w).2.

(** The store never holds more than [TOAST_LIMIT] toasts. *)
Definition bounded (s : State) : Prop := length (toasts s) ≤ TOAST_LIMIT.

(** ** Ids that are not in the list *)

Definition absent (i : string) (state : State) : Prop :=
  Forall (λ t, id (props t) ≠ i) (toasts state).

Global Instance absent_dec i state : Decision (absent i state).
Proof. unfold absent. apply _. Defined.

(** The action names the toast [i]. *)
Definition names (i : string) (a : Action) : Prop :=
  match a with
  | UPDATE_TOAST j _ => j = i
  | DISMISS_TOAST (Some j) => j = i
  | REMOVE_TOAST (Some j) => j = i
  | _ => False
  end.

(** ** The timers of a dismiss *)

(** The timers the [DISMISS_TOAST] case arms before it computes the list. *)
Definition removals (state : State) (toastId : option string) : M unit :=
  let scheduleAll :=
    forEach (λ toast, addToRemoveQueue (id (props toast))
                                       (duration (props toast)))
            (toasts state) in
  match toastId with
  | Some i => if truthy toastId then addToRemoveQueue i None else scheduleAll
  | None => scheduleAll
  end.

(** The ids for which the [DISMISS_TOAST] case arms a timer. *)
Definition removal_ids (state : State) (toastId : option string) : gset string :=
  let all := list_to_set ((id ∘ props) <$> toasts state) in
  match toastId with
  | Some i => if truthy toastId then {[ i ]} else all
  | None => all
  end.

(** ** The registry and the host *)

(** Every callback pending at the host is the one the registry holds for its
    toast id. *)
Definition registered (w : World) : Prop :=
  map_Forall (λ h cb, toastTimeouts w !! cb.2 = Some h) (timers w).

Global Instance registered_dec w : Decision (registered w).
Proof. unfold registered. apply _. Defined.

(** ** Persistent toasts *)

(** The object [toast] builds and adds. *)
Definition created (t : Toast) (w : World) : ToasterToast :=
  let i := (genId w).1 in
  mkObj (next_ref w)
        {| id := i; title := t_title t; description := t_description t;
           action := t_action t; duration := t_duration t;
           open := Some true; variant := t_variant t;
           onOpenChange := Some (DismissWhenClosed i) |}.

(** No callback pending at the host would remove the toast [i]. *)
Definition no_timer_for (i : string) (w : World) : Prop :=
  map_Forall (λ _ cb, cb.2 ≠ i) (timers w).

Global Instance no_timer_for_dec i w : Decision (no_timer_for i w).
Proof. unfold no_timer_for. apply _. Defined.

(** ** Generated ids *)

(** [n] calls of [genId] in a row, with the ids they return, oldest first. *)
Fixpoint genIds (n : nat) : M (list string) :=
  match n with
  | O => mret []
  | S n => i ← genId; l ← genIds n; mret (i :: l)
  end.

(** ** Concrete runs *)

(** [toast({ title, duration })] *)
Definition plain (title : string) (d : option Z) : Toast :=
  mkToast (Some title) None None d None None None.

(** Two toasts: ["1"] with the default delay, ["2"] lasting seven seconds. *)
Definition sample : World :=
  run [CallToast (plain "A" None); CallToast (plain "B" (Some 7000%Z))] init.

(** ** The registry and the host, continued *)

(** The handles the registry holds. *)
Definition registered_handles (w : World) : gset handle :=
  map_img (toastTimeouts w).

(** Every entry of the registry has its callback pending at the host. *)
Definition backed (w : World) : Prop :=
  map_Forall (λ i h, snd <$> timers w !! h = Some i) (toastTimeouts w).

Global Instance backed_dec w : Decision (backed w).
Proof. unfold backed. apply _. Defined.

(** Every pending handle was returned by an earlier [setTimeout]. *)
Definition issued (w : World) : Prop :=
  map_Forall (λ h _, (h < next_handle w)%positive) (timers w).

Global Instance issued_dec w : Decision (issued w).
Proof. unfold issued. apply _. Defined.

Definition consistent (w : World) : Prop :=
  registered w ∧ backed w ∧ issued w.

Global Instance consistent_dec w : Decision (consistent w).
Proof. unfold consistent. apply _. Defined.

(** The ids of the toasts of a state, in order. *)
Definition ids (state : State) : list string :=
  (id ∘ props) <$> toasts state.

(** An [ADD_TOAST] dispatched with a toast that [toast] did not build. *)
Definition raw_add (e : Event) : bool :=
  match e with
  | Dispatch (ADD_TOAST _) => true
  | _ => false
  end.

(** The ids of the store come from the counter, each once. *)
Definition generated_ids (n : Z) (w : World) : Prop :=
  (0 ≤ count w ≤ n)%Z
  ∧ Forall (λ s, ∃ k, (1 ≤ k ≤ count w)%Z ∧ s = pretty k) (ids (memoryState w))
  ∧ NoDup (ids (memoryState w)).

(** [{ ...p1, ...p2 }] on partial toasts: a key of [p2] wins. *)
Definition over (p2 p1 : Partial) : Partial :=
  {| p_title := from_option Some (p_title p1) (p_title p2);
     p_description := from_option Some (p_description p1) (p_description p2);
     p_action := from_option Some (p_action p1) (p_action p2);
     p_duration := from_option Some (p_duration p1) (p_duration p2);
     p_open := from_option Some (p_open p1) (p_open p2);
     p_variant := from_option Some (p_variant p1) (p_variant p2);
     p_onOpenChange := from_option Some (p_onOpenChange p1) (p_onOpenChange p2) |}.

(** An event that neither dispatches [ADD_TOAST] with a toast made elsewhere,
    nor updates the [open] key of a toast, nor calls the reducer from outside
    with [CLEAR_ALL_TOASTS] (which empties the registry and stores no
    state). *)
Definition tame (e : Event) : bool :=
  match e with
  | Dispatch (ADD_TOAST _) => false
  | Dispatch (UPDATE_TOAST _ p) | CallUpdate _ p => bool_decide (p_open p = None)
  | CallReducer _ CLEAR_ALL_TOASTS => false
  | _ => true
  end.

(** Every toast of the store with [open = false] has an entry in the
    registry. *)
Definition closed_have_timer (w : World) : Prop :=
  Forall (λ t, open (props t) = Some false →
               is_Some (toastTimeouts w !! id (props t)))
         (toasts (memoryState w)).

(** ** What leaves a toast alone *)

(** An id other than [i] that is not the empty string. *)
Definition other (i j : string) : bool := bool_decide (j ≠ i ∧ j ≠ "").

(** A dispatched action that adds no toast, removes no toast of id [i] and
    arms no timer for [i]. *)
Definition spares_action (i : string) (a : Action) : bool :=
  match a with
  | ADD_TOAST _ => false
  | UPDATE_TOAST _ _ => true
  | DISMISS_TOAST (Some j) => other i j
  | DISMISS_TOAST None => false
  | REMOVE_TOAST (Some j) => bool_decide (j ≠ i)
  | REMOVE_TOAST None => false
  | CLEAR_ALL_TOASTS => false
  end.

(** The events other than: a dismiss of [i], of every toast or with the empty
    id; a [REMOVE_TOAST] of [i] or of every toast; [CLEAR_ALL_TOASTS] and
    [cleanup]; and the creation of a toast.  A call of the reducer from
    outside stores nothing, so only the timers it arms count. *)
Definition spares (i : string) (e : Event) : bool :=
  match e with
  | Dispatch a => spares_action i a
  | CallReducer _ (DISMISS_TOAST (Some j)) => other i j
  | CallReducer _ (DISMISS_TOAST None) => false
  | CallReducer _ _ => true
  | Fire _ | CallUpdate _ _ | Subscribe _ | Unsubscribe _ => true
  | CallDismiss j | HookDismiss (Some j) => other i j
  | OpenChange (DismissWhenClosed j) false => other i j
  | OpenChange _ _ => true
  | CallToast _ | HookDismiss None | HookClearAll | Cleanup => false
  end.

(** * Proofs *)

(** ** The monad *)

Ltac unfold_M :=
  unfold mbind, mret, M_bind, M_ret, gets, modify in *; simpl in *.

Lemma bind_run {A B} (m : M A) (f : A → M B) w :
  (m ≫= f) w = f (m w).1 (m w).2.
Proof. done. Qed.

Lemma allocates_only_ret {A} (a : A) : allocates_only (mret a).
Proof. intros w. exists (next_ref w). by destruct w. Qed.

Lemma allocates_only_new p : allocates_only (new p).
Proof. intros w. by exists (Pos.succ (next_ref w)). Qed.

Lemma allocates_only_bind {A B} (m : M A) (f : A → M B) :
  allocates_only m → (∀ a, allocates_only (f a)) → allocates_only (m ≫= f).
Proof.
  intros Hm Hf w. unfold_M.
  destruct (Hm w) as [r Hr]. rewrite Hr.
  destruct (Hf (m w).1 (set_next_ref r w)) as [r' Hr'].
  exists r'. by rewrite Hr'.
Qed.

Lemma allocates_only_mapM {A B} (f : A → M B) (l : list A) :
  (∀ a, allocates_only (f a)) → allocates_only (mapM f l).
Proof.
  intros Hf. induction l as [|x l IH]; simpl.
  - apply allocates_only_ret.
  - apply allocates_only_bind; [done|]. intros y.
    apply allocates_only_bind; [done|]. intros k. apply allocates_only_ret.
Qed.

(** What [mapM] returns is related, element by element, to the list it maps
    over, whatever the world each element is processed in. *)
Lemma mapM_Forall2 {A B} (R : A → B → Prop) (f : A → M B) (l : list A) w :
  (∀ a w', R a (f a w').1) → Forall2 R l (mapM f l w).1.
Proof.
  intros Hf. revert w. induction l as [|x l IH]; intros w; simpl.
  - constructor.
  - unfold_M. constructor; [apply Hf | apply IH].
Qed.

Lemma forEach_app {A} (f : A → M unit) (l1 l2 : list A) w :
  forEach f (l1 ++ l2) w = forEach f l2 (forEach f l1 w).2.
Proof.
  revert w. induction l1 as [|x l1 IH]; intros w; simpl; [done|].
  unfold_M. apply IH.
Qed.

(** ** Frame conditions *)

Section keeps.
Context {B : Type} (proj : World → B).

Lemma keeps_ret {A} (a : A) : keeps proj (mret a).
Proof. by intros w. Qed.

Lemma keeps_gets {A} (f : World → A) : keeps proj (gets f).
Proof. by intros w. Qed.

Lemma keeps_modify (f : World → World) :
  (∀ w, proj (f w) = proj w) → keeps proj (modify f).
Proof. intros Hf w. apply Hf. Qed.

Lemma keeps_bind {A C} (m : M A) (f : A → M C) :
  keeps proj m → (∀ a, keeps proj (f a)) → keeps proj (m ≫= f).
Proof. intros Hm Hf w. unfold_M. by rewrite Hf, Hm. Qed.

Lemma keeps_forEach {A} (f : A → M unit) (l : list A) :
  (∀ a, keeps proj (f a)) → keeps proj (forEach f l).
Proof.
  intros Hf. induction l as [|x l IH]; simpl.
  - apply keeps_ret.
  - apply keeps_bind; auto.
Qed.

Lemma keeps_mapM {A C} (f : A → M C) (l : list A) :
  (∀ a, keeps proj (f a)) → keeps proj (mapM f l).
Proof.
  intros Hf. induction l as [|x l IH]; simpl.
  - apply keeps_ret.
  - apply keeps_bind; [done|]. intros y.
    apply keeps_bind; [done|]. intros k. apply keeps_ret.
Qed.

Lemma keeps_allocates_only {A} (m : M A) :
  (∀ r w, proj (set_next_ref r w) = proj w) →
  allocates_only m → keeps proj m.
Proof. intros Hp Hm w. destruct (Hm w) as [r ->]. apply Hp. Qed.
End keeps.

(** Decompose a computation along its binds, closing the leaves that only
    read, return, or write some other variable. *)
Ltac frame :=
  repeat first
    [ apply keeps_ret
    | apply keeps_gets
    | apply keeps_modify; solve [intros []; reflexivity | auto]
    | apply keeps_forEach; intros ?
    | apply keeps_mapM; intros ?
    | apply keeps_bind; [|intros ?]
    | progress case_match ].

Lemma new_keeps {B} (proj : World → B) p :
  (∀ r w, proj (set_next_ref r w) = proj w) → keeps proj (new p).
Proof. intros Hp. apply keeps_allocates_only, allocates_only_new. done. Qed.

Lemma addToRemoveQueue_keeps_memoryState i d :
  keeps memoryState (addToRemoveQueue i d).
Proof. unfold addToRemoveQueue, clearTimeout, setTimeout. frame. Qed.

Lemma removeFromRemoveQueue_keeps_memoryState i :
  keeps memoryState (removeFromRemoveQueue i).
Proof. unfold removeFromRemoveQueue, clearTimeout. frame. Qed.

Lemma notify_keeps_memoryState l : keeps memoryState (notify l).
Proof. unfold notify. frame. Qed.

Lemma notify_keeps_toastTimeouts l : keeps toastTimeouts (notify l).
Proof. unfold notify. frame. Qed.

Lemma notify_keeps_timers l : keeps timers (notify l).
Proof. unfold notify. frame. Qed.

Lemma genId_keeps_memoryState : keeps memoryState genId.
Proof. unfold genId. frame. Qed.

(** ** The reducer, case by case *)

Lemma reducer_ADD state t w :
  reducer state (ADD_TOAST t) w
  = (mkState (take TOAST_LIMIT (t :: toasts state)), w).
Proof. done. Qed.

Lemma reducer_REMOVE state i w :
  reducer state (REMOVE_TOAST (Some i)) w
  = (mkState (filter (λ t, id (props t) ≠ i) (toasts state)), w).
Proof. done. Qed.

Lemma reducer_REMOVE_all state w :
  reducer state (REMOVE_TOAST None) w = (mkState [], w).
Proof. done. Qed.

Lemma reducer_UPDATE state i p w :
  Forall2 (updated i p) (toasts state)
          (toasts (reducer state (UPDATE_TOAST i p) w).1).
Proof.
  simpl. unfold_M. apply mapM_Forall2. intros t w'. unfold updated.
  by destruct (String.eqb _ _).
Qed.

Lemma reducer_UPDATE_world state i p :
  allocates_only (reducer state (UPDATE_TOAST i p)).
Proof.
  simpl. apply allocates_only_bind; [|intros; apply allocates_only_ret].
  apply allocates_only_mapM. intros t.
  destruct (String.eqb _ _); [apply allocates_only_new|apply allocates_only_ret].
Qed.

Lemma reducer_DISMISS state toastId w :
  Forall2 (dismissed toastId) (toasts state)
          (toasts (reducer state (DISMISS_TOAST toastId) w).1).
Proof.
  simpl. unfold_M. apply mapM_Forall2. intros t w'. unfold dismissed.
  destruct toastId as [i|]; [|done]. by destruct (String.eqb _ _).
Qed.

Lemma reducer_CLEAR_ALL state w :
  (reducer state CLEAR_ALL_TOASTS w).1 = mkState [].
Proof. done. Qed.

(** The reducer writes no variable of the module other than the registry, and
    touches nothing of the host other than its timers and new objects. *)
Lemma reducer_keeps {B} (proj : World → B) state a :
  (∀ x w, proj (set_timers x w) = proj w) →
  (∀ x w, proj (set_toastTimeouts x w) = proj w) →
  (∀ x w, proj (set_next_handle x w) = proj w) →
  (∀ x w, proj (set_next_ref x w) = proj w) →
  keeps proj (reducer state a).
Proof.
  intros H1 H2 H3 H4.
  destruct a; simpl;
    unfold clearAllTimeouts, addToRemoveQueue, clearTimeout, setTimeout;
    frame; by apply new_keeps.
Qed.

Lemma reducer_keeps_memoryState state a : keeps memoryState (reducer state a).
Proof. apply reducer_keeps; by intros ? []. Qed.

Lemma dispatch_memoryState a w :
  memoryState (dispatch a w).2 = (reducer (memoryState w) a w).1.
Proof.
  unfold dispatch. unfold_M.
  rewrite (keeps_forEach memoryState notify); [done|].
  apply notify_keeps_memoryState.
Qed.

(** The reducer never lets the list grow beyond the limit. *)
Lemma reducer_length state a w :
  length (toasts state) ≤ TOAST_LIMIT →
  length (toasts (reducer state a w).1) ≤ TOAST_LIMIT.
Proof.
  intros Hlen. destruct a as [t|i p|toastId|[i|]|].
  - rewrite reducer_ADD. cbn [fst toasts]. rewrite length_take. lia.
  - by rewrite <-(Forall2_length _ _ _ (reducer_UPDATE state i p w)).
  - by rewrite <-(Forall2_length _ _ _ (reducer_DISMISS state toastId w)).
  - rewrite reducer_REMOVE. simpl toasts.
    etrans; [apply length_filter|done].
  - rewrite reducer_REMOVE_all. simpl. lia.
  - rewrite reducer_CLEAR_ALL. simpl. lia.
Qed.

(** ** Invariants of runs *)

Lemma preserves_ret {A} P (a : A) : preserves P (mret a).
Proof. by intros w. Qed.

Lemma preserves_bind {A C} P (m : M A) (f : A → M C) :
  preserves P m → (∀ a, preserves P (f a)) → preserves P (m ≫= f).
Proof. intros Hm Hf w HP. unfold_M. by apply Hf, Hm. Qed.

Lemma preserves_forEach {A} P (f : A → M unit) (l : list A) :
  (∀ a, preserves P (f a)) → preserves P (forEach f l).
Proof.
  intros Hf. induction l as [|x l IH]; simpl.
  - apply preserves_ret.
  - apply preserves_bind; auto.
Qed.

Lemma keeps_preserves {A B} (proj : World → B) (Q : B → Prop) (m : M A) :
  keeps proj m → preserves (λ w, Q (proj w)) m.
Proof. intros Hm w HQ. by rewrite Hm. Qed.

Lemma dispatch_bounded a : preserves (λ w, bounded (memoryState w)) (dispatch a).
Proof. intros w Hw. rewrite dispatch_memoryState. by apply reducer_length. Qed.

Lemma toast_dismiss_bounded i :
  preserves (λ w, bounded (memoryState w)) (toast_dismiss i).
Proof.
  unfold toast_dismiss. apply preserves_bind; [|intros; apply dispatch_bounded].
  apply (keeps_preserves memoryState bounded),
    removeFromRemoveQueue_keeps_memoryState.
Qed.

Lemma step_bounded e : preserves (λ w, bounded (memoryState w)) (step e).
Proof.
  destruct e as [a|h|t|i p|i|toastId| |hd o|l|l| |s a]; cbn [step].
  - apply dispatch_bounded.
  - unfold fire. intros w Hw. rewrite bind_run. cbn [gets fst snd].
    destruct (timers w !! h) as [[d i]|]; [|done].
    rewrite !bind_run. by apply dispatch_bounded.
  - unfold toast.
    apply preserves_bind; [|intros _; apply preserves_ret].
    apply preserves_bind; [|intros i].
    { apply (keeps_preserves memoryState bounded), genId_keeps_memoryState. }
    apply preserves_bind; [|intros o].
    { apply (keeps_preserves memoryState bounded), new_keeps. by intros ? []. }
    apply preserves_bind; [apply dispatch_bounded|intros _].
    apply preserves_bind; [|intros _; apply preserves_ret].
    case_bool_decide; [|apply preserves_ret].
    apply (keeps_preserves memoryState bounded),
      addToRemoveQueue_keeps_memoryState.
  - apply dispatch_bounded.
  - apply toast_dismiss_bounded.
  - unfold useToast_dismiss.
    apply preserves_bind; [|intros; apply dispatch_bounded].
    destruct toastId as [i|]; [|apply preserves_ret].
    destruct (truthy _); [|apply preserves_ret].
    apply (keeps_preserves memoryState bounded),
      removeFromRemoveQueue_keeps_memoryState.
  - apply dispatch_bounded.
  - destruct hd as [i|n]; [destruct o|]; cbn [call_onOpenChange];
      first [apply preserves_ret|apply toast_dismiss_bounded].
  - apply (keeps_preserves memoryState bounded). unfold subscribe. frame.
  - apply (keeps_preserves memoryState bounded). unfold unsubscribe. frame.
  - intros w _. unfold cleanup. unfold_M. unfold bounded, TOAST_LIMIT. simpl. lia.
  - apply (keeps_preserves memoryState bounded).
    apply keeps_bind; [apply reducer_keeps_memoryState|intros; apply keeps_ret].
Qed.

Lemma run_bounded es w :
  bounded (memoryState w) → bounded (memoryState (run es w)).
Proof. apply (preserves_forEach (λ w, bounded (memoryState w))), step_bounded. Qed.

Lemma take_app_take {A} (l k : list A) n :
  take n (l ++ take n k) = take n (l ++ k).
Proof. rewrite !take_app, take_take. do 2 f_equal. lia. Qed.

Lemma reduce_ADD t ts state w :
  reduce state (ADD_TOAST <$> t :: ts) w
  = (mkState (take TOAST_LIMIT (reverse (t :: ts) ++ toasts state)), w).
Proof.
  revert t state. induction ts as [|t' ts IH]; intros t state.
  - done.
  - change (reduce state (ADD_TOAST <$> t :: t' :: ts) w)
      with (reduce (mkState (take TOAST_LIMIT (t :: toasts state)))
                   (ADD_TOAST <$> t' :: ts) w).
    rewrite IH. cbn [toasts]. rewrite take_app_take.
    by rewrite (reverse_cons (t' :: ts) t), <-app_assoc.
Qed.

(** ** Capacity *)

(** C3.  Each [ADD_TOAST] leaves [min TOAST_LIMIT (previous count + 1)]
    toasts, with [TOAST_LIMIT = 5]; after a sequence of [ADD_TOAST] actions
    applied through the reducer the list holds the most recently added
    [TOAST_LIMIT] toasts, newest first (the added toasts in reverse order in
    front of the earlier ones, cut at the limit); and whatever happens to the
    module from its initial state, the store never holds more than
    [TOAST_LIMIT] toasts. *)
Theorem capacity_invariant :
  TOAST_LIMIT = 5
  ∧ (∀ state t w,
       length (toasts (reducer state (ADD_TOAST t) w).1)
       = min TOAST_LIMIT (length (toasts state) + 1))
  ∧ (∀ state t ts w,
       toasts (reduce state (ADD_TOAST <$> t :: ts) w).1
       = take TOAST_LIMIT (reverse (t :: ts) ++ toasts state))
  ∧ (∀ ts w,
       toasts (reduce (mkState []) (ADD_TOAST <$> ts) w).1
       = take TOAST_LIMIT (reverse ts))
  ∧ (∀ es, length (toasts (memoryState (run es init))) ≤ TOAST_LIMIT).
Proof.
  split_and!.
  - done.
  - intros state t w. rewrite reducer_ADD. cbn [fst toasts].
    rewrite length_take. cbn [length]. lia.
  - intros state t ts w. by rewrite reduce_ADD.
  - intros [|t ts] w; [done|]. rewrite reduce_ADD. cbn [fst toasts].
    by rewrite app_nil_r.
  - intros es. apply run_bounded. unfold bounded. simpl. lia.
Qed.

(** ** Timers: what [dispatch] does is what the reducer does *)

Lemma dispatch_toastTimeouts a w :
  toastTimeouts (dispatch a w).2 = toastTimeouts (reducer (memoryState w) a w).2.
Proof.
  unfold dispatch. unfold_M.
  rewrite (keeps_forEach toastTimeouts notify); [done|].
  apply notify_keeps_toastTimeouts.
Qed.

Lemma dispatch_timers a w :
  timers (dispatch a w).2 = timers (reducer (memoryState w) a w).2.
Proof.
  unfold dispatch. unfold_M.
  rewrite (keeps_forEach timers notify); [done|].
  apply notify_keeps_timers.
Qed.

Lemma addToRemoveQueue_toastTimeouts i d w :
  toastTimeouts (addToRemoveQueue i d w).2
  = <[i := next_handle w]> (toastTimeouts w).
Proof.
  unfold addToRemoveQueue, setTimeout, clearTimeout. unfold_M.
  by destruct (toastTimeouts w !! i).
Qed.

Lemma addToRemoveQueue_timers i d w :
  timers (addToRemoveQueue i d w).2
  = <[next_handle w := (default TOAST_REMOVE_DELAY d, i)]>
      (match toastTimeouts w !! i with
       | Some h => delete h (timers w)
       | None => timers w
       end).
Proof.
  unfold addToRemoveQueue, setTimeout, clearTimeout. unfold_M.
  by destruct (toastTimeouts w !! i).
Qed.

(** The objects built by [map] in the [DISMISS_TOAST] and [UPDATE_TOAST] cases
    cost identities, nothing else. *)
Lemma close_matching_allocates_only toastId l :
  allocates_only
    (mapM (λ t, match toastId with
                | Some i => if String.eqb (id (props t)) i
                            then new (closed (props t))
                            else mret t
                | None => new (closed (props t))
                end) l).
Proof.
  apply allocates_only_mapM. intros t. destruct toastId as [i|].
  - destruct (String.eqb _ _); [apply allocates_only_new|apply allocates_only_ret].
  - apply allocates_only_new.
Qed.

Lemma reducer_DISMISS_world {B} (proj : World → B) state toastId w :
  (∀ r w, proj (set_next_ref r w) = proj w) →
  proj (reducer state (DISMISS_TOAST toastId) w).2
  = proj (removals state toastId w).2.
Proof.
  intros Hproj. cbn [reducer]. rewrite bind_run.
  fold (removals state toastId).
  apply (keeps_bind proj); [|intros; apply keeps_ret].
  apply keeps_allocates_only; [done|apply close_matching_allocates_only].
Qed.

(** [DISMISS_TOAST] with a non-empty id arms one timer, for that id, with the
    default delay. *)
Lemma reducer_DISMISS_id state i w :
  i ≠ "" →
  let w' := (reducer state (DISMISS_TOAST (Some i)) w).2 in
  toastTimeouts w' = <[i := next_handle w]> (toastTimeouts w)
  ∧ timers w' !! next_handle w = Some (TOAST_REMOVE_DELAY, i).
Proof.
  intros Hi. cbn zeta.
  rewrite (reducer_DISMISS_world toastTimeouts), (reducer_DISMISS_world timers)
    by (by intros ? []).
  unfold removals, truthy.
  assert (String.eqb i "" = false) as -> by by apply String.eqb_neq.
  cbn [negb]. split.
  - apply addToRemoveQueue_toastTimeouts.
  - rewrite addToRemoveQueue_timers. apply lookup_insert_eq.
Qed.

(** ** Ids that are not in the list *)

Lemma updated_absent i p l l' :
  Forall (λ t, id (props t) ≠ i) l → Forall2 (updated i p) l l' → l' = l.
Proof.
  intros Habs Hupd. induction Hupd as [|t t' l l' Ht _ IH]; [done|].
  apply Forall_cons in Habs as [Hne Habs]. unfold updated in Ht.
  apply String.eqb_neq in Hne. rewrite Hne in Ht. subst t'. by rewrite IH.
Qed.

Lemma dismissed_absent i l l' :
  Forall (λ t, id (props t) ≠ i) l → Forall2 (dismissed (Some i)) l l' → l' = l.
Proof.
  intros Habs Hdis. induction Hdis as [|t t' l l' Ht _ IH]; [done|].
  apply Forall_cons in Habs as [Hne Habs]. unfold dismissed in Ht.
  apply String.eqb_neq in Hne. rewrite Hne in Ht. subst t'. by rewrite IH.
Qed.

Lemma filter_absent i l :
  Forall (λ t, id (props t) ≠ i) l → filter (λ t, id (props t) ≠ i) l = l.
Proof.
  induction 1 as [|t l Hne _ IH]; [done|].
  by rewrite filter_cons_True, IH.
Qed.

Lemma dispatch_absent (w : World) (i : string) (a : Action) :
  names i a →
  absent i (memoryState w) →
  toasts (memoryState (dispatch a w).2) = toasts (memoryState w).
Proof.
  intros Ha Habs. rewrite dispatch_memoryState.
  destruct a as [t|j p|[j|]|[j|]|]; simpl in Ha; try done; subst j.
  - by eapply updated_absent, reducer_UPDATE.
  - by eapply dismissed_absent, reducer_DISMISS.
  - rewrite reducer_REMOVE. by apply filter_absent.
Qed.

(** C6.  Dispatching [UPDATE_TOAST], [DISMISS_TOAST] or [REMOVE_TOAST] with
    an id that no toast of the current state has leaves the list of toasts as
    it was.  [dispatch] is a total function: there is no input on which it
    fails. *)
Theorem absent_id_is_noop (w : World) (i : string) (a : Action) :
  names i a →
  absent i (memoryState w) →
  toasts (memoryState (dispatch a w).2) = toasts (memoryState w).
Proof. apply dispatch_absent. Qed.

(** C7.  Dispatching [UPDATE_TOAST] with [{ id: i, title: X }] keeps the
    length of the list; at every position, a toast whose id is [i] gets the
    title [X] and keeps the value of each of its other fields, and a toast
    whose id differs is the same object as before. *)
Theorem update_merge (w : World) (i X : string) (n : nat) (t : ToasterToast) :
  toasts (memoryState w) !! n = Some t →
  let l' := toasts (memoryState (dispatch (UPDATE_TOAST i (only_title X)) w).2) in
  length l' = length (toasts (memoryState w))
  ∧ ∃ t', l' !! n = Some t'
      ∧ if decide (id (props t) = i)
        then title (props t') = Some X
             ∧ id (props t') = id (props t)
             ∧ description (props t') = description (props t)
             ∧ action (props t') = action (props t)
             ∧ duration (props t') = duration (props t)
             ∧ open (props t') = open (props t)
             ∧ variant (props t') = variant (props t)
             ∧ onOpenChange (props t') = onOpenChange (props t)
        else t' = t.
Proof.
  intros Hn l'. subst l'. rewrite dispatch_memoryState.
  pose proof (reducer_UPDATE (memoryState w) i (only_title X) w) as Hupd.
  split; [symmetry; by eapply Forall2_length|].
  destruct (Forall2_lookup_l _ _ _ _ _ Hupd Hn) as (t' & Hn' & Ht).
  exists t'. split; [done|]. unfold updated in Ht.
  destruct (decide (id (props t) = i)) as [Heq|Hne].
  - apply String.eqb_eq in Heq as Heqb. rewrite Heqb in Ht. rewrite Ht.
    by subst i.
  - apply String.eqb_neq in Hne. by rewrite Hne in Ht.
Qed.

(** ** Dismiss *)

(** Once dismissed, a list is a fixed point of the same dismissal, as far as
    the properties of its toasts go. *)
Lemma dismissed_twice toastId l l1 l2 :
  Forall2 (dismissed toastId) l l1 →
  Forall2 (dismissed toastId) l1 l2 →
  props <$> l2 = props <$> l1.
Proof.
  intros H1. revert l2.
  induction H1 as [|t t1 l l1 Ht _ IH]; intros l2 H2.
  - by apply Forall2_nil_inv_l in H2 as ->.
  - apply Forall2_cons_inv_l in H2 as (t2 & l2' & Ht2 & H2 & ->).
    rewrite !fmap_cons, (IH _ H2). f_equal.
    unfold dismissed in *. destruct toastId as [i|].
    + destruct (String.eqb (id (props t)) i) eqn:Hti.
      * assert (String.eqb (id (props t1)) i = true) as Ht1i
          by (by rewrite Ht).
        rewrite Ht1i in Ht2. by rewrite Ht2, Ht.
      * subst t1. rewrite Hti in Ht2. by subst t2.
    + by rewrite Ht2, Ht.
Qed.

(** C8.  Dispatching the same [DISMISS_TOAST] a second time leaves every toast
    with the properties it had after the first: the list of toasts has the
    same length and, position by position, the same field values. *)
Theorem dismiss_idempotent (w : World) (toastId : option string) :
  let w1 := (dispatch (DISMISS_TOAST toastId) w).2 in
  let w2 := (dispatch (DISMISS_TOAST toastId) w1).2 in
  props <$> toasts (memoryState w2) = props <$> toasts (memoryState w1).
Proof.
  intros w1 w2. subst w2. rewrite dispatch_memoryState.
  eapply dismissed_twice; [|apply reducer_DISMISS].
  subst w1. rewrite dispatch_memoryState. apply reducer_DISMISS.
Qed.

(** C10.  Dispatching [DISMISS_TOAST] with a non-empty id that no toast of the
    list has leaves the list as it was, and all the same puts a timer for
    that id in the registry: the host holds a pending callback, with the
    default delay, that will dispatch [REMOVE_TOAST] for it. *)
Theorem dismiss_absent_id_arms_timer (w : World) (i : string) :
  i ≠ "" →
  absent i (memoryState w) →
  let w' := (dispatch (DISMISS_TOAST (Some i)) w).2 in
  toasts (memoryState w') = toasts (memoryState w)
  ∧ ∃ h, toastTimeouts w' !! i = Some h
         ∧ timers w' !! h = Some (TOAST_REMOVE_DELAY, i).
Proof.
  intros Hi Habs w'. split.
  - by apply (dispatch_absent w i).
  - exists (next_handle w). subst w'.
    rewrite dispatch_toastTimeouts, dispatch_timers.
    destruct (reducer_DISMISS_id (memoryState w) i w Hi) as [-> ->].
    by rewrite lookup_insert_eq.
Qed.

(** ** The effects of the reducer *)

Lemma forEach_addToRemoveQueue_dom (l : list ToasterToast) w :
  dom (toastTimeouts
         (forEach (λ toast, addToRemoveQueue (id (props toast))
                                             (duration (props toast))) l w).2)
  = list_to_set ((id ∘ props) <$> l) ∪ dom (toastTimeouts w).
Proof.
  revert w. induction l as [|t l IH]; intros w.
  - simpl. by rewrite (left_id_L ∅ (∪)).
  - cbn [forEach]. rewrite bind_run, IH, addToRemoveQueue_toastTimeouts.
    rewrite dom_insert_L, fmap_cons, list_to_set_cons. simpl.
    by rewrite (assoc_L (∪)), (comm_L (∪) (list_to_set _)).
Qed.

Lemma removals_dom state toastId w :
  dom (toastTimeouts (removals state toastId w).2)
  = removal_ids state toastId ∪ dom (toastTimeouts w).
Proof.
  unfold removals, removal_ids.
  destruct toastId as [i|]; [destruct (truthy _)|];
    try apply forEach_addToRemoveQueue_dom.
  by rewrite addToRemoveQueue_toastTimeouts, dom_insert_L.
Qed.

(** ** No timer left after a clear *)

Lemma registered_lookup w h d i :
  registered w → timers w !! h = Some (d, i) → toastTimeouts w !! i = Some h.
Proof. intros Hw Hh. by apply Hw in Hh. Qed.

Lemma registered_keeps {A} (m : M A) :
  keeps timers m → keeps toastTimeouts m → preserves registered m.
Proof. intros Ht Hr w Hw. unfold registered. by rewrite Ht, Hr. Qed.

Lemma registered_addToRemoveQueue i d : preserves registered (addToRemoveQueue i d).
Proof.
  intros w Hw h [d' i']. cbn [snd].
  rewrite addToRemoveQueue_timers, addToRemoveQueue_toastTimeouts.
  destruct (decide (h = next_handle w)) as [->|Hh].
  - rewrite lookup_insert_eq. intros [= <- <-]. by rewrite lookup_insert_eq.
  - rewrite lookup_insert_ne by done. intros Hpending.
    assert (timers w !! h = Some (d', i')
            ∧ toastTimeouts w !! i ≠ Some h) as [Hts Hne].
    { destruct (toastTimeouts w !! i) as [h0|] eqn:Hi; [|done].
      apply lookup_delete_Some in Hpending as [Hh0 ?].
      split; [done|]. by intros [= ->]. }
    apply (registered_lookup w) in Hts; [|done].
    rewrite lookup_insert_ne; [done|]. by intros ->.
Qed.

Lemma removeFromRemoveQueue_timers i w :
  timers (removeFromRemoveQueue i w).2
  = match toastTimeouts w !! i with
    | Some h => delete h (timers w)
    | None => timers w
    end.
Proof.
  unfold removeFromRemoveQueue, clearTimeout. unfold_M.
  by destruct (toastTimeouts w !! i).
Qed.

Lemma removeFromRemoveQueue_toastTimeouts i w :
  toastTimeouts (removeFromRemoveQueue i w).2 = delete i (toastTimeouts w).
Proof.
  unfold removeFromRemoveQueue, clearTimeout. unfold_M.
  destruct (toastTimeouts w !! i) eqn:Hi; [done|].
  simpl. by rewrite delete_id.
Qed.

Lemma registered_removeFromRemoveQueue i :
  preserves registered (removeFromRemoveQueue i).
Proof.
  intros w Hw h [d i']. cbn [snd].
  rewrite removeFromRemoveQueue_timers, removeFromRemoveQueue_toastTimeouts.
  intros Hpending.
  assert (timers w !! h = Some (d, i')
          ∧ toastTimeouts w !! i ≠ Some h) as [Hts Hne].
  { destruct (toastTimeouts w !! i) as [h0|] eqn:Hi.
    - apply lookup_delete_Some in Hpending as [Hh0 ?].
      split; [done|]. by intros [= ->].
    - done. }
  apply (registered_lookup w) in Hts; [|done].
  rewrite lookup_delete_ne; [done|]. by intros ->.
Qed.

(** Cancelling every registered timer, seen from the host's table. *)
Lemma cancel_registered (reg : gmap string handle) (ts : gmap handle (Z * string)) :
  let ts' := map_fold (λ _ timeout acc, delete timeout acc) ts reg in
  (∀ i h, reg !! i = Some h → ts' !! h = None)
  ∧ (∀ h x, ts' !! h = Some x → ts !! h = Some x).
Proof.
  apply (map_fold_weak_ind
           (λ r m, (∀ i h, m !! i = Some h → r !! h = None)
                   ∧ (∀ h x, r !! h = Some x → ts !! h = Some x))).
  - split; [intros i h; by rewrite lookup_empty|done].
  - intros j t m r Hj [IH1 IH2]. split.
    + intros i h. destruct (decide (j = i)) as [->|Hji].
      * rewrite lookup_insert_eq. intros [= ->]. apply lookup_delete_eq.
      * rewrite lookup_insert_ne by done. intros Hi.
        apply lookup_delete_None. right. by eapply IH1.
    + intros h x Hx. apply lookup_delete_Some in Hx as [_ Hx]. by apply IH2.
Qed.

Lemma clearAllTimeouts_registered w :
  registered w → timers (clearAllTimeouts w).2 = ∅.
Proof.
  intros Hw. unfold clearAllTimeouts. unfold_M.
  destruct (cancel_registered (toastTimeouts w) (timers w)) as [Hreg Hsub].
  apply map_empty. intros h.
  destruct (map_fold _ _ _ !! h) as [[d i]|] eqn:Hh; [|done].
  pose proof (Hreg _ _ (registered_lookup _ _ _ _ Hw (Hsub _ _ Hh))) as Hnone.
  cbv zeta in Hnone. by rewrite Hh in Hnone.
Qed.

Lemma registered_empty w : timers w = ∅ → registered w.
Proof. intros Hw. unfold registered. rewrite Hw. apply map_Forall_empty. Qed.

Lemma reducer_CLEAR_ALL_timers state w :
  registered w → timers (reducer state CLEAR_ALL_TOASTS w).2 = ∅.
Proof. intros Hw. cbn [reducer]. unfold_M. by apply clearAllTimeouts_registered. Qed.

Lemma registered_reducer state a : preserves registered (reducer state a).
Proof.
  destruct a as [t|i p|toastId|toastId|]; cbn [reducer].
  - apply preserves_ret.
  - apply registered_keeps; apply keeps_allocates_only;
      try apply (reducer_UPDATE_world state i p); by intros ? [].
  - apply preserves_bind.
    + destruct toastId as [i|]; [destruct (truthy _)|];
        try (apply preserves_forEach; intros ?);
        apply registered_addToRemoveQueue.
    + intros _. apply registered_keeps;
        (apply keeps_bind; [|intros; apply keeps_ret]);
        (apply keeps_allocates_only;
           [by intros ? []|apply close_matching_allocates_only]).
  - destruct toastId; apply preserves_ret.
  - intros w Hw. apply registered_empty.
    by apply (reducer_CLEAR_ALL_timers state).
Qed.

Lemma registered_dispatch a : preserves registered (dispatch a).
Proof.
  unfold dispatch.
  apply preserves_bind; [by intros w|intros s].
  apply preserves_bind; [apply registered_reducer|intros s'].
  apply preserves_bind; [|intros _].
  { apply registered_keeps; apply keeps_modify; by intros []. }
  apply preserves_bind; [by intros w|intros ls].
  apply preserves_forEach. intros l.
  apply registered_keeps;
    [apply notify_keeps_timers|apply notify_keeps_toastTimeouts].
Qed.

Lemma registered_fire h : preserves registered (fire h).
Proof.
  intros w Hw. unfold fire. rewrite bind_run. cbn [gets fst snd].
  destruct (timers w !! h) as [[d i]|] eqn:Hh; [|done].
  rewrite !bind_run. apply registered_dispatch. unfold_M.
  intros h' [d' i']. simpl. intros Hpending.
  apply lookup_delete_Some in Hpending as [Hne Hpending].
  apply (registered_lookup w) in Hpending as Hreg; [|done].
  apply (registered_lookup w) in Hh; [|done].
  rewrite lookup_delete_ne; [done|]. intros ->. congruence.
Qed.

Lemma registered_toast_dismiss i : preserves registered (toast_dismiss i).
Proof.
  unfold toast_dismiss.
  apply preserves_bind; [|intros; apply registered_dispatch].
  apply registered_removeFromRemoveQueue.
Qed.

Lemma registered_cleanup : preserves registered cleanup.
Proof.
  intros w Hw. apply registered_empty. unfold cleanup. unfold_M.
  by apply clearAllTimeouts_registered.
Qed.

Lemma registered_step e : preserves registered (step e).
Proof.
  destruct e as [a|h|t|i p|i|toastId| |hd o|l|l| |s a]; cbn [step].
  - apply registered_dispatch.
  - apply registered_fire.
  - unfold toast.
    apply preserves_bind; [|intros _; apply preserves_ret].
    apply preserves_bind; [|intros i].
    { apply registered_keeps; unfold genId; frame. }
    apply preserves_bind; [|intros o].
    { apply registered_keeps; apply new_keeps; by intros ? []. }
    apply preserves_bind; [apply registered_dispatch|intros _].
    apply preserves_bind; [|intros _; apply preserves_ret].
    case_bool_decide; [|apply preserves_ret].
    apply registered_addToRemoveQueue.
  - apply registered_dispatch.
  - apply registered_toast_dismiss.
  - unfold useToast_dismiss.
    apply preserves_bind; [|intros; apply registered_dispatch].
    destruct toastId as [i|]; [|apply preserves_ret].
    destruct (truthy _); [|apply preserves_ret].
    apply registered_removeFromRemoveQueue.
  - apply registered_dispatch.
  - destruct hd as [i|n]; [destruct o|]; cbn [call_onOpenChange];
      first [apply preserves_ret|apply registered_toast_dismiss].
  - apply registered_keeps; unfold subscribe; frame.
  - apply registered_keeps; unfold unsubscribe; frame.
  - apply registered_cleanup.
  - apply preserves_bind; [apply registered_reducer|intros; apply preserves_ret].
Qed.

Lemma registered_run es w : registered w → registered (run es w).
Proof. apply (preserves_forEach registered), registered_step. Qed.

Lemma run_CLEAR_ALL es w :
  let w' := run (es ++ [Dispatch CLEAR_ALL_TOASTS]) w in
  toastTimeouts w' = ∅ ∧ (registered (run es w) → timers w' = ∅).
Proof.
  unfold run. rewrite forEach_app. cbn [forEach step].
  rewrite bind_run. cbn [mret M_ret snd].
  rewrite dispatch_toastTimeouts, dispatch_timers. split; [done|].
  apply reducer_CLEAR_ALL_timers.
Qed.

(** C2, the part the code provides.  Whatever happened before, once
    [CLEAR_ALL_TOASTS] has been dispatched the registry of timers is empty;
    and in a run of the module from its initial state no callback is left
    pending at the host either. *)
Theorem clear_all_leaves_no_timer :
  (∀ es w, toastTimeouts (run (es ++ [Dispatch CLEAR_ALL_TOASTS]) w) = ∅)
  ∧ (∀ es, timers (run (es ++ [Dispatch CLEAR_ALL_TOASTS]) init) = ∅).
Proof.
  split; intros es.
  - intros w. apply run_CLEAR_ALL.
  - rewrite (proj2 (run_CLEAR_ALL es init)); [done|].
    apply registered_run, registered_empty. done.
Qed.

(** ** Persistent toasts *)

Lemma toast_memoryState t w :
  memoryState (toast t w).2
  = mkState (take TOAST_LIMIT (created t w :: toasts (memoryState w))).
Proof.
  unfold toast. rewrite !bind_run. cbn [mret M_ret snd].
  match goal with
  | |- memoryState (?m ?w1).2 = _ =>
      assert (keeps memoryState m) as ->
        by (case_bool_decide;
              [apply addToRemoveQueue_keeps_memoryState|apply keeps_ret])
  end.
  rewrite dispatch_memoryState, reducer_ADD. by destruct w.
Qed.

Lemma toast_persistent_timers t w :
  t_duration t = Some 0%Z →
  timers (toast t w).2 = timers w ∧ toastTimeouts (toast t w).2 = toastTimeouts w.
Proof.
  intros Hd. unfold toast. rewrite !bind_run, Hd. cbn [mret M_ret snd].
  rewrite bool_decide_eq_false_2 by (by intros []).
  cbn [mret M_ret snd].
  rewrite dispatch_timers, dispatch_toastTimeouts, reducer_ADD.
  by destruct w.
Qed.

Lemma fire_timers h w : timers (fire h w).2 = delete h (timers w).
Proof.
  unfold fire. rewrite bind_run. cbn [gets fst snd].
  destruct (timers w !! h) as [[d i]|] eqn:Hh.
  - rewrite !bind_run. by rewrite dispatch_timers, reducer_REMOVE.
  - cbn [mret M_ret snd]. by rewrite delete_id.
Qed.

Lemma fire_memoryState h w :
  memoryState (fire h w).2
  = match timers w !! h with
    | Some (_, i) =>
        mkState (filter (λ t, id (props t) ≠ i) (toasts (memoryState w)))
    | None => memoryState w
    end.
Proof.
  unfold fire. rewrite bind_run. cbn [gets fst snd].
  destruct (timers w !! h) as [[d i]|] eqn:Hh; [|done].
  rewrite !bind_run. by rewrite dispatch_memoryState, reducer_REMOVE.
Qed.

(** As long as no pending callback names it, a toast outlives every timer
    that fires. *)
Lemma fires_keep_toast (o : ToasterToast) (hs : list handle) w :
  no_timer_for (id (props o)) w →
  o ∈ toasts (memoryState w) →
  o ∈ toasts (memoryState (run (Fire <$> hs) w)).
Proof.
  revert w. induction hs as [|h hs IH]; intros w Hno Ho; [done|].
  unfold run. cbn [fmap list_fmap forEach]. rewrite bind_run.
  apply IH; cbn [step].
  - intros h' cb. rewrite fire_timers. intros Hh'.
    apply lookup_delete_Some in Hh' as [_ Hh']. by apply Hno in Hh'.
  - rewrite fire_memoryState.
    destruct (timers w !! h) as [[d i]|] eqn:Hh; [|done].
    cbn [toasts]. apply list_elem_of_filter. split; [|done].
    intros Hi. by apply Hno in Hh.
Qed.

Lemma created_head t w :
  created t w ∈ toasts (memoryState (toast t w).2).
Proof. rewrite toast_memoryState. cbn. apply list_elem_of_here. Qed.

(** ** Generated ids *)

Lemma genId_id w : (genId w).1 = pretty (Z.rem (count w + 1) MAX_SAFE_INTEGER).
Proof. done. Qed.

Lemma genId_count w :
  count (genId w).2 = Z.rem (count w + 1) MAX_SAFE_INTEGER.
Proof. done. Qed.

Lemma rem_MAX_SAFE_INTEGER (c : Z) :
  (0 ≤ c)%Z → Z.rem c MAX_SAFE_INTEGER = (c `mod` MAX_SAFE_INTEGER)%Z.
Proof. intros Hc. by apply Z.rem_mod_nonneg. Qed.

Lemma genIds_length n w : length (genIds n w).1 = n.
Proof.
  revert w. induction n as [|n IH]; intros w; [done|].
  cbn [genIds]. rewrite !bind_run. cbn [mret M_ret fst length]. by rewrite IH.
Qed.

Lemma genIds_lookup n w (k : nat) :
  (0 ≤ count w)%Z →
  k < n →
  (genIds n w).1 !! k
  = Some (pretty ((count w + 1 + Z.of_nat k) `mod` MAX_SAFE_INTEGER)%Z).
Proof.
  revert w k. induction n as [|n IH]; intros w k Hw Hk; [lia|].
  cbn [genIds]. rewrite !bind_run. cbn [mret M_ret fst].
  destruct k as [|k].
  - cbn [lookup list_lookup]. rewrite genId_id, rem_MAX_SAFE_INTEGER by lia.
    do 3 f_equal. lia.
  - cbn [lookup list_lookup]. fold (@lookup nat string (list string) _).
    assert (count (genId w).2 = ((count w + 1) `mod` MAX_SAFE_INTEGER)%Z)
      as Hcount by (rewrite genId_count; apply rem_MAX_SAFE_INTEGER; lia).
    rewrite IH; [|rewrite Hcount; by apply Z.mod_pos_bound|lia].
    rewrite Hcount. do 2 f_equal.
    rewrite <-Z.add_assoc, Zplus_mod_idemp_l. f_equal. lia.
Qed.

Lemma mod_window (a x y m : Z) :
  (0 ≤ x < m)%Z → (0 ≤ y < m)%Z →
  ((a + x) `mod` m = (a + y) `mod` m)%Z → x = y.
Proof.
  intros Hx Hy Heq.
  assert (0 < m)%Z as Hm by lia.
  pose proof (Z.div_mod (a + x) m ltac:(lia)) as Hdx.
  pose proof (Z.div_mod (a + y) m ltac:(lia)) as Hdy.
  rewrite Heq in Hdx.
  assert (x - y = m * ((a + x) `div` m - (a + y) `div` m))%Z as Hdiff by lia.
  assert ((a + x) `div` m - (a + y) `div` m = 0)%Z by nia.
  lia.
Qed.

Lemma genIds_NoDup n w :
  (0 ≤ count w)%Z →
  (Z.of_nat n ≤ MAX_SAFE_INTEGER)%Z → NoDup (genIds n w).1.
Proof.
  intros Hw Hn. apply NoDup_alt. intros j k s Hj Hk.
  assert (j < n) as Hjn.
  { rewrite <-(genIds_length n w). by eapply lookup_lt_Some. }
  assert (k < n) as Hkn.
  { rewrite <-(genIds_length n w). by eapply lookup_lt_Some. }
  rewrite genIds_lookup in Hj by done. rewrite genIds_lookup in Hk by done.
  rewrite <-Hk in Hj. injection Hj as Hj. apply (inj pretty) in Hj.
  apply mod_window in Hj; lia.
Qed.

(** C9.  Each call of [genId] returns the decimal string of
    [(count + 1) % MAX_SAFE_INTEGER] and stores that number in [count]; from
    the counter [MAX_SAFE_INTEGER - 1] the next id is ["0"].  Counting from
    the start of the module the [k]-th id (from 0) is the string of [k + 1],
    and any [n <= MAX_SAFE_INTEGER - 1] ids generated in a row are pairwise
    distinct, from the start and from any other value the counter can have. *)
Theorem genId_unique (w : World) (n k : nat) :
  k < n →
  (Z.of_nat n ≤ MAX_SAFE_INTEGER - 1)%Z →
  (0 ≤ count w < MAX_SAFE_INTEGER)%Z →
  (genId w).1 = pretty (Z.rem (count w + 1) MAX_SAFE_INTEGER)
  ∧ count (genId w).2 = Z.rem (count w + 1) MAX_SAFE_INTEGER
  ∧ (genId (set_count (MAX_SAFE_INTEGER - 1) w)).1 = "0"
  ∧ (genIds n init).1 !! k = Some (pretty (Z.of_nat k + 1)%Z)
  ∧ NoDup (genIds n init).1
  ∧ NoDup (genIds n w).1.
Proof.
  intros Hk Hn Hw. split_and!.
  - apply genId_id.
  - apply genId_count.
  - done.
  - rewrite genIds_lookup by done. do 2 f_equal. cbn [count init].
    rewrite Z.mod_small; lia.
  - apply genIds_NoDup; [done|lia].
  - apply genIds_NoDup; lia.
Qed.

(** ** Persistent toasts, continued *)

(** A generated id is never the empty string. *)
Lemma pretty_N_go_nonempty (x : N) (s : string) :
  s ≠ "" → pretty_N_go x s ≠ "".
Proof.
  revert s. induction (N.lt_wf_0 x) as [x _ IH]. intros s Hs.
  destruct (decide (x = 0%N)) as [->|Hx]; [by rewrite pretty_N_go_0|].
  rewrite pretty_N_go_step by lia. apply IH; [|done].
  apply N.div_lt; lia.
Qed.

Lemma pretty_N_nonempty (x : N) : pretty x ≠ "".
Proof.
  unfold pretty, pretty_N. case_decide; [done|].
  rewrite pretty_N_go_step by lia. by apply pretty_N_go_nonempty.
Qed.

Lemma pretty_Z_nonempty (x : Z) : pretty x ≠ "".
Proof.
  destruct x as [|p|p]; unfold pretty, pretty_Z; [done| |done].
  apply pretty_N_nonempty.
Qed.

Lemma genId_nonempty w : (genId w).1 ≠ "".
Proof. rewrite genId_id. apply pretty_Z_nonempty. Qed.

Lemma toast_dismiss_arms i w :
  i ≠ "" →
  let w2 := (toast_dismiss i w).2 in
  ∃ h, toastTimeouts w2 !! i = Some h
       ∧ timers w2 !! h = Some (TOAST_REMOVE_DELAY, i).
Proof.
  intros Hi w2. subst w2. unfold toast_dismiss. rewrite bind_run.
  set (w1 := (removeFromRemoveQueue i w).2).
  exists (next_handle w1).
  rewrite dispatch_toastTimeouts, dispatch_timers.
  destruct (reducer_DISMISS_id (memoryState w1) i w1 Hi) as [-> ->].
  by rewrite lookup_insert_eq.
Qed.

Lemma filter_absent_id i (l : list ToasterToast) :
  Forall (λ t, id (props t) ≠ i) (filter (λ t, id (props t) ≠ i) l).
Proof. apply Forall_forall. intros t Ht. by apply list_elem_of_filter in Ht as [? _]. Qed.

Lemma fire_removes h d i w :
  timers w !! h = Some (d, i) → absent i (memoryState (fire h w).2).
Proof. intros Hh. rewrite fire_memoryState, Hh. apply filter_absent_id. Qed.

Lemma dispatch_REMOVE_absent i w :
  absent i (memoryState (dispatch (REMOVE_TOAST (Some i)) w).2).
Proof. rewrite dispatch_memoryState, reducer_REMOVE. apply filter_absent_id. Qed.

(** C4 on a toast of its own duration.  A toast is created with a duration of
    7000 ms and dismissed through its handle: the removal timer armed by
    [DISMISS_TOAST] for its id has the default delay of 5000 ms, not the
    toast's 7000 ms.  The same toast dismissed with no id gets a timer of
    7000 ms. *)
Theorem dismiss_by_id_uses_default_delay :
  let w := run [CallToast (plain "A" (Some 7000%Z))] init in
  (λ t, (id (props t), duration (props t))) <$> toasts (memoryState w)
  = [("1", Some 7000%Z)]
  ∧ map_to_list (timers (run [CallDismiss "1"] w))
    = [(2%positive, (5000%Z, "1"))]
  ∧ map_to_list (timers (run [Dispatch (DISMISS_TOAST (Some "1"))] w))
    = [(2%positive, (5000%Z, "1"))]
  ∧ map_to_list (timers (run [Dispatch (DISMISS_TOAST None)] w))
    = [(2%positive, (7000%Z, "1"))].
Proof. vm_compute. done. Qed.


(** C2 fails on a full remove: the timer of a toast created before it is
    still in the registry, and still pending, once the list is empty. *)
Lemma remove_all_leaves_timer :
  let w := run [CallToast (plain "A" None); Dispatch (REMOVE_TOAST None)] init in
  toasts (memoryState w) = []
  ∧ toastTimeouts w ≠ ∅
  ∧ map_to_list (toastTimeouts w) = [("1", 1%positive)]
  ∧ map_to_list (timers w) = [(1%positive, (5000%Z, "1"))].
Proof.
  split_and!; [done| |done..].
  intros Heq. apply (f_equal (lookup "1")) in Heq. vm_compute in Heq. done.
Qed.

(** C5 fails on a dismiss: a toast created with [duration] 0 gets a removal
    timer for its id when it is dismissed by id, and also when everything is
    dismissed (then with a delay of 0). *)
Lemma persistent_toast_gets_timer :
  let w := run [CallToast (plain "E" (Some 0%Z))] init in
  (λ t, (id (props t), duration (props t))) <$> toasts (memoryState w)
  = [("1", Some 0%Z)]
  ∧ map_to_list (timers w) = []
  ∧ map_to_list (timers (run [CallDismiss "1"] w))
    = [(1%positive, (5000%Z, "1"))]
  ∧ map_to_list (timers (run [HookDismiss None] w))
    = [(1%positive, (0%Z, "1"))].
Proof. vm_compute. done. Qed.

(** ** The theorems at concrete inputs *)

Lemma absent_id_is_noop_witness :
  names "9" (REMOVE_TOAST (Some "9"))
  ∧ absent "9" (memoryState sample)
  ∧ toasts (memoryState (dispatch (REMOVE_TOAST (Some "9")) sample).2)
    = toasts (memoryState sample).
Proof.
  assert (names "9" (REMOVE_TOAST (Some "9"))) as Hnames by reflexivity.
  assert (absent "9" (memoryState sample)) as Habs
    by (apply (bool_decide_unpack _); vm_compute; exact I).
  split_and!; [done..|].
  exact (absent_id_is_noop sample "9" (REMOVE_TOAST (Some "9")) Hnames Habs).
Defined.

Lemma update_merge_witness :
  ∃ t, toasts (memoryState sample) !! 1 = Some t
       ∧ ∃ t', toasts (memoryState
                         (dispatch (UPDATE_TOAST "1" (only_title "X")) sample).2)
               !! 1 = Some t'
               ∧ title (props t') = Some "X"
               ∧ duration (props t') = duration (props t).
Proof.
  eexists. split; [reflexivity|].
  edestruct (update_merge sample "1" "X" 1) as (_ & t' & Ht' & Hfields);
    [reflexivity|].
  exists t'. split; [exact Ht'|].
  rewrite decide_True in Hfields by reflexivity.
  destruct Hfields as (? & _ & _ & _ & ? & _). by split.
Defined.

Lemma dismiss_absent_id_arms_timer_witness :
  "9" ≠ ""
  ∧ absent "9" (memoryState sample)
  ∧ toasts (memoryState (dispatch (DISMISS_TOAST (Some "9")) sample).2)
    = toasts (memoryState sample)
  ∧ ∃ h, toastTimeouts (dispatch (DISMISS_TOAST (Some "9")) sample).2 !! "9"
         = Some h
         ∧ timers (dispatch (DISMISS_TOAST (Some "9")) sample).2 !! h
           = Some (TOAST_REMOVE_DELAY, "9").
Proof.
  assert ("9" ≠ "") as Hne by discriminate.
  assert (absent "9" (memoryState sample)) as Habs
    by (apply (bool_decide_unpack _); vm_compute; exact I).
  split_and!; [done..| |];
    apply (dismiss_absent_id_arms_timer sample "9" Hne Habs).
Defined.

Lemma genId_unique_witness :
  (genIds 3 init).1 !! 1 = Some "2" ∧ NoDup (genIds 3 init).1.
Proof.
  destruct (genId_unique init 3 1) as (_ & _ & _ & Hk & Hnd & _).
  - lia.
  - vm_compute. discriminate.
  - vm_compute. split; [discriminate|reflexivity].
  - split; [exact Hk|exact Hnd].
Defined.

(** * Further properties of the module *)

(** ** The registry and the host's timers agree *)

Lemma backed_lookup w i h :
  backed w → toastTimeouts w !! i = Some h → ∃ d, timers w !! h = Some (d, i).
Proof.
  intros Hw Hi. apply Hw in Hi. cbn beta in Hi.
  destruct (timers w !! h) as [[d j]|]; [|done].
  exists d. by injection Hi as ->.
Qed.

Lemma addToRemoveQueue_next_handle i d w :
  next_handle (addToRemoveQueue i d w).2 = Pos.succ (next_handle w).
Proof.
  unfold addToRemoveQueue, setTimeout, clearTimeout. unfold_M.
  by destruct (toastTimeouts w !! i).
Qed.

Lemma removeFromRemoveQueue_next_handle i w :
  next_handle (removeFromRemoveQueue i w).2 = next_handle w.
Proof.
  unfold removeFromRemoveQueue, clearTimeout. unfold_M.
  by destruct (toastTimeouts w !! i).
Qed.

Lemma consistent_keeps {A} (m : M A) :
  keeps timers m → keeps toastTimeouts m → keeps next_handle m →
  preserves consistent m.
Proof.
  intros Ht Hr Hn w (H1 & H2 & H3). split_and!.
  - by apply registered_keeps.
  - unfold backed. by rewrite Ht, Hr.
  - unfold issued. by rewrite Ht, Hn.
Qed.

Lemma consistent_addToRemoveQueue i d :
  preserves consistent (addToRemoveQueue i d).
Proof.
  intros w (H1 & H2 & H3). split_and!.
  - by apply registered_addToRemoveQueue.
  - intros j h. cbn beta.
    rewrite addToRemoveQueue_timers, addToRemoveQueue_toastTimeouts.
    destruct (decide (i = j)) as [->|Hij].
    + rewrite lookup_insert_eq. intros [= <-]. by rewrite lookup_insert_eq.
    + rewrite lookup_insert_ne by done. intros Hj.
      destruct (backed_lookup w j h H2 Hj) as [d' Hh].
      assert (h ≠ next_handle w) as Hfresh.
      { apply H3 in Hh. cbn beta in Hh. lia. }
      rewrite lookup_insert_ne by done.
      destruct (toastTimeouts w !! i) as [h0|] eqn:Hi; [|by rewrite Hh].
      destruct (backed_lookup w i h0 H2 Hi) as [d0 Hh0].
      rewrite lookup_delete_ne; [by rewrite Hh|].
      intros ->. congruence.
  - intros h cb. rewrite addToRemoveQueue_timers, addToRemoveQueue_next_handle.
    destruct (decide (h = next_handle w)) as [->|Hh]; [lia|].
    rewrite lookup_insert_ne by done. intros Hcb.
    assert (timers w !! h = Some cb) as Hcb'.
    { destruct (toastTimeouts w !! i); [|done].
      by apply lookup_delete_Some in Hcb as [_ ?]. }
    apply H3 in Hcb'. cbn beta in Hcb'. lia.
Qed.

Lemma consistent_removeFromRemoveQueue i :
  preserves consistent (removeFromRemoveQueue i).
Proof.
  intros w (H1 & H2 & H3). split_and!.
  - by apply registered_removeFromRemoveQueue.
  - intros j h. cbn beta.
    rewrite removeFromRemoveQueue_timers, removeFromRemoveQueue_toastTimeouts.
    intros Hj. apply lookup_delete_Some in Hj as [Hij Hj].
    destruct (backed_lookup w j h H2 Hj) as [d' Hh].
    destruct (toastTimeouts w !! i) as [h0|] eqn:Hi; [|by rewrite Hh].
    destruct (backed_lookup w i h0 H2 Hi) as [d0 Hh0].
    rewrite lookup_delete_ne; [by rewrite Hh|].
    intros ->. congruence.
  - intros h cb.
    rewrite removeFromRemoveQueue_timers, removeFromRemoveQueue_next_handle.
    intros Hcb. apply (H3 h cb).
    destruct (toastTimeouts w !! i); [|done].
    by apply lookup_delete_Some in Hcb as [_ ?].
Qed.

Lemma consistent_cleared w :
  timers w = ∅ → toastTimeouts w = ∅ → consistent w.
Proof.
  intros Ht Hr. split_and!.
  - by apply registered_empty.
  - unfold backed. rewrite Hr. apply map_Forall_empty.
  - unfold issued. rewrite Ht. apply map_Forall_empty.
Qed.

Lemma consistent_reducer state a : preserves consistent (reducer state a).
Proof.
  destruct a as [t|i p|toastId|toastId|]; cbn [reducer].
  - apply preserves_ret.
  - apply consistent_keeps; apply keeps_allocates_only;
      try apply (reducer_UPDATE_world state i p); by intros ? [].
  - apply preserves_bind.
    + destruct toastId as [i|]; [destruct (truthy _)|];
        try (apply preserves_forEach; intros ?);
        apply consistent_addToRemoveQueue.
    + intros _. apply consistent_keeps;
        (apply keeps_bind; [|intros; apply keeps_ret]);
        (apply keeps_allocates_only;
           [by intros ? []|apply close_matching_allocates_only]).
  - destruct toastId; apply preserves_ret.
  - intros w (H1 & _ & _). apply consistent_cleared.
    + by apply (reducer_CLEAR_ALL_timers state).
    + done.
Qed.

Lemma consistent_dispatch a : preserves consistent (dispatch a).
Proof.
  unfold dispatch.
  apply preserves_bind; [by intros w|intros s].
  apply preserves_bind; [apply consistent_reducer|intros s'].
  apply preserves_bind; [|intros _].
  { apply consistent_keeps; apply keeps_modify; by intros []. }
  apply preserves_bind; [by intros w|intros ls].
  apply preserves_forEach. intros l.
  apply consistent_keeps; unfold notify; frame.
Qed.

Lemma consistent_fire h : preserves consistent (fire h).
Proof.
  intros w (H1 & H2 & H3). unfold fire. rewrite bind_run. cbn [gets fst snd].
  destruct (timers w !! h) as [[d i]|] eqn:Hh; [|done].
  rewrite !bind_run. apply consistent_dispatch. unfold_M. split_and!.
  - intros h' [d' i']. simpl. intros Hpending.
    apply lookup_delete_Some in Hpending as [Hne Hpending].
    apply (registered_lookup w) in Hpending as Hreg; [|done].
    apply (registered_lookup w) in Hh; [|done].
    rewrite lookup_delete_ne; [done|]. intros ->. congruence.
  - intros j h'. simpl. intros Hj.
    apply lookup_delete_Some in Hj as [Hij Hj].
    destruct (backed_lookup w j h' H2 Hj) as [d' Hh'].
    rewrite lookup_delete_ne; [by rewrite Hh'|].
    intros ->. congruence.
  - intros h' cb. simpl. intros Hcb.
    apply lookup_delete_Some in Hcb as [_ Hcb]. by apply (H3 h' cb).
Qed.

Lemma consistent_toast_dismiss i : preserves consistent (toast_dismiss i).
Proof.
  unfold toast_dismiss.
  apply preserves_bind; [|intros; apply consistent_dispatch].
  apply consistent_removeFromRemoveQueue.
Qed.

Lemma consistent_cleanup : preserves consistent cleanup.
Proof.
  intros w (H1 & _ & _). apply consistent_cleared.
  - unfold cleanup. unfold_M. by apply clearAllTimeouts_registered.
  - done.
Qed.

Lemma consistent_toast t : preserves consistent (toast t).
Proof.
  unfold toast.
  apply preserves_bind; [|intros i].
  { apply consistent_keeps; unfold genId; frame. }
  apply preserves_bind; [|intros o].
  { apply consistent_keeps; apply new_keeps; by intros ? []. }
  apply preserves_bind; [apply consistent_dispatch|intros _].
  apply preserves_bind; [|intros _; apply preserves_ret].
  case_bool_decide; [|apply preserves_ret].
  apply consistent_addToRemoveQueue.
Qed.

Lemma consistent_step e : preserves consistent (step e).
Proof.
  destruct e as [a|h|t|i p|i|toastId| |hd o|l|l| |s a]; cbn [step].
  - apply consistent_dispatch.
  - apply consistent_fire.
  - apply preserves_bind; [apply consistent_toast|intros _; apply preserves_ret].
  - apply consistent_dispatch.
  - apply consistent_toast_dismiss.
  - unfold useToast_dismiss.
    apply preserves_bind; [|intros; apply consistent_dispatch].
    destruct toastId as [i|]; [|apply preserves_ret].
    destruct (truthy _); [|apply preserves_ret].
    apply consistent_removeFromRemoveQueue.
  - apply consistent_dispatch.
  - destruct hd as [i|n]; [destruct o|]; cbn [call_onOpenChange];
      first [apply preserves_ret|apply consistent_toast_dismiss].
  - apply consistent_keeps; unfold subscribe; frame.
  - apply consistent_keeps; unfold unsubscribe; frame.
  - apply consistent_cleanup.
  - apply preserves_bind; [apply consistent_reducer|intros; apply preserves_ret].
Qed.

Lemma consistent_init : consistent init.
Proof. by apply consistent_cleared. Qed.

Lemma consistent_run es w : consistent w → consistent (run es w).
Proof. apply (preserves_forEach consistent), consistent_step. Qed.

Lemma consistent_one_timer w h h' d d' i :
  consistent w →
  timers w !! h = Some (d, i) → timers w !! h' = Some (d', i) →
  h = h' ∧ d = d' ∧ toastTimeouts w !! i = Some h.
Proof.
  intros (H1 & _ & _) Hh Hh'.
  pose proof (registered_lookup _ _ _ _ H1 Hh) as Hr.
  pose proof (registered_lookup _ _ _ _ H1 Hh') as Hr'.
  assert (h = h') as <- by congruence.
  split_and!; [done| |done]. congruence.
Qed.

(** ** The effects of the reducer on the timers *)

(** Cancelling every timer of a registry removes from the host's table the
    handles the registry holds, and no other. *)
Lemma cancel_lookup (reg : gmap string handle) (ts : gmap handle (Z * string))
    (h : handle) :
  map_fold (λ _ timeout acc, delete timeout acc) ts reg !! h
  = if decide (h ∈@{gset handle} map_img reg) then None else ts !! h.
Proof.
  revert h.
  refine (map_fold_weak_ind
            (λ (r : gmap handle (Z * string)) (m : gmap string handle),
               ∀ h, r !! h
                    = if decide (h ∈@{gset handle} map_img m)
                      then None else ts !! h)
            (λ _ timeout acc, delete timeout acc) ts _ _ reg).
  - intros h. rewrite decide_False; [done|].
    rewrite elem_of_map_img. intros [i Hi]. by rewrite lookup_empty in Hi.
  - intros j t m r Hj IH h.
    destruct (decide (h = t)) as [->|Hht].
    + rewrite lookup_delete_eq, decide_True; [done|].
      apply elem_of_map_img. exists j. apply lookup_insert_eq.
    + rewrite lookup_delete_ne by done. rewrite IH.
      destruct (decide (h ∈@{gset handle} map_img m)) as [Hin|Hnin].
      * rewrite decide_True; [done|].
        apply elem_of_map_img in Hin as [i Hi]. apply elem_of_map_img.
        exists i. rewrite lookup_insert_ne; [done|]. intros ->. congruence.
      * rewrite decide_False; [done|]. intros Hin. apply Hnin.
        apply elem_of_map_img in Hin as [i Hi]. apply elem_of_map_img.
        destruct (decide (j = i)) as [->|Hji].
        -- rewrite lookup_insert_eq in Hi. congruence.
        -- rewrite lookup_insert_ne in Hi by done. by exists i.
Qed.

Lemma clearAllTimeouts_timers w :
  timers (clearAllTimeouts w).2
  = filter (λ hc, hc.1 ∉ registered_handles w) (timers w).
Proof.
  unfold clearAllTimeouts, registered_handles. unfold_M.
  apply map_eq. intros h. rewrite cancel_lookup. apply option_eq. intros cb.
  rewrite map_lookup_filter_Some. cbn [fst].
  destruct (decide (h ∈@{gset handle} map_img (toastTimeouts w)))
    as [Hin|Hnin].
  - split; [done|]. by intros [_ ?].
  - split; [by intros ?|by intros [? _]].
Qed.

Lemma reducer_CLEAR_ALL_cancels state w :
  timers (reducer state CLEAR_ALL_TOASTS w).2 = timers (clearAllTimeouts w).2.
Proof. done. Qed.





(** X1.  In every state the module reaches from its initial state, whatever
    is called and whichever timers fire, two callbacks pending at the host
    for the same toast id are one and the same timer, and that timer is the
    one the registry holds for the id: no toast has two removal timers. *)
Theorem one_timer_per_id (es : list Event) (h h' : handle) (d d' : Z)
    (i : string) :
  timers (run es init) !! h = Some (d, i) →
  timers (run es init) !! h' = Some (d', i) →
  h = h' ∧ d = d' ∧ toastTimeouts (run es init) !! i = Some h.
Proof. apply consistent_one_timer, consistent_run, consistent_init. Qed.

(** X2.  In every state the module reaches from its initial state, each
    entry of the registry names a timer that is pending at the host, for a
    callback that removes the toast of that very id: the registry holds no
    handle of a timer that has fired or was cancelled. *)
Theorem registry_entry_is_pending (es : list Event) (i : string) (h : handle) :
  toastTimeouts (run es init) !! i = Some h →
  ∃ d, timers (run es init) !! h = Some (d, i).
Proof.
  apply backed_lookup. by apply consistent_run, consistent_init.
Qed.

(** ** Scheduling and cancelling *)

Lemma fire_toastTimeouts h w :
  toastTimeouts (fire h w).2
  = match timers w !! h with
    | Some (_, i) => delete i (toastTimeouts w)
    | None => toastTimeouts w
    end.
Proof.
  unfold fire. rewrite bind_run. cbn [gets fst snd].
  destruct (timers w !! h) as [[d i]|] eqn:Hh; [|done].
  rewrite !bind_run. by rewrite dispatch_toastTimeouts, reducer_REMOVE.
Qed.

Lemma toast_arms t w :
  t_duration t ≠ Some 0%Z →
  toastTimeouts (toast t w).2
  = <[(toast t w).1 := next_handle w]> (toastTimeouts w)
  ∧ timers (toast t w).2
    = <[next_handle w := (default TOAST_REMOVE_DELAY (t_duration t),
                          (toast t w).1)]>
        (match toastTimeouts w !! (toast t w).1 with
         | Some h => delete h (timers w)
         | None => timers w
         end).
Proof.
  intros Hd. unfold toast. rewrite !bind_run. cbn [mret M_ret fst snd].
  rewrite bool_decide_eq_true_2 by done.
  rewrite addToRemoveQueue_toastTimeouts, addToRemoveQueue_timers.
  rewrite dispatch_timers, dispatch_toastTimeouts, reducer_ADD.
  cbn [snd].
  assert (∀ o w', next_handle (dispatch (ADD_TOAST o) w').2 = next_handle w')
    as Hnh.
  { intros o w'. unfold dispatch. rewrite !bind_run. cbn [gets modify fst snd].
    rewrite (keeps_forEach next_handle notify) by (intros l; unfold notify; frame).
    done. }
  rewrite Hnh. by destruct w.
Qed.

(** X3.  A toast created with a duration other than 0 gets one removal timer,
    registered under its id, with its duration as delay, or 5000 ms when it
    has none.  When that timer fires, the toasts of that id leave the list
    (the others stay, in order), the registry loses the id and the timer is
    no longer pending. *)
Theorem auto_removal (t : Toast) (w : World) :
  t_duration t ≠ Some 0%Z →
  let i := (toast t w).1 in
  let w1 := (toast t w).2 in
  let h := next_handle w in
  let w2 := (fire h w1).2 in
  toastTimeouts w1 !! i = Some h
  ∧ timers w1 !! h = Some (default TOAST_REMOVE_DELAY (t_duration t), i)
  ∧ created t w ∈ toasts (memoryState w1)
  ∧ toasts (memoryState w2)
    = filter (λ o, id (props o) ≠ i) (toasts (memoryState w1))
  ∧ toastTimeouts w2 !! i = None
  ∧ timers w2 !! h = None.
Proof.
  intros Hd i w1 h w2.
  destruct (toast_arms t w Hd) as [Hreg Hts].
  assert (timers w1 !! h = Some (default TOAST_REMOVE_DELAY (t_duration t), i))
    as Hh by (subst w1 h; rewrite Hts; apply lookup_insert_eq).
  split_and!.
  - subst w1 h. rewrite Hreg. apply lookup_insert_eq.
  - done.
  - apply created_head.
  - subst w2. by rewrite fire_memoryState, Hh.
  - subst w2. rewrite fire_toastTimeouts, Hh. apply lookup_delete_eq.
  - subst w2. rewrite fire_timers. apply lookup_delete_eq.
Qed.

Lemma addToRemoveQueue_timers_lookup i d w h' d' j :
  consistent w →
  timers (addToRemoveQueue i d w).2 !! h' = Some (d', j)
  ↔ if decide (j = i)
    then h' = next_handle w ∧ d' = default TOAST_REMOVE_DELAY d
    else timers w !! h' = Some (d', j).
Proof.
  intros (H1 & H2 & H3). rewrite addToRemoveQueue_timers.
  destruct (decide (h' = next_handle w)) as [->|Hh'].
  - rewrite lookup_insert_eq. case_decide as Hj.
    + subst j. split; [by intros [= <-]|by intros [_ ->]].
    + split; [intros [= _ <-]; done|].
      intros Hold. apply H3 in Hold. cbn beta in Hold. lia.
  - rewrite lookup_insert_ne by done. case_decide as Hj.
    + subst j. split; [|by intros [? _]]. intros Hold. exfalso.
      destruct (toastTimeouts w !! i) as [h0|] eqn:Hi.
      * apply lookup_delete_Some in Hold as [Hne Hold].
        apply (registered_lookup w) in Hold; [|done]. congruence.
      * apply (registered_lookup w) in Hold; [|done]. congruence.
    + destruct (toastTimeouts w !! i) as [h0|] eqn:Hi; [|done].
      destruct (decide (h0 = h')) as [->|Hh0]; [|by rewrite lookup_delete_ne].
      rewrite lookup_delete_eq.
      destruct (backed_lookup w i h' H2 Hi) as [d0 Hh0].
      split; [done|]. intros Hold. congruence.
Qed.

(** X4.  Scheduling a removal for an id replaces what was scheduled for it.
    In a state where registry and host agree, after
    [addToRemoveQueue(i, d)] the registry maps [i] to the new handle, and a
    callback is pending for [i] exactly when it is that new timer, with delay
    [d ?? 5000]; for any other id the pending callbacks are the ones that
    were pending before. *)
Theorem addToRemoveQueue_replaces (w : World) (i : string) (d : option Z)
    (h' : handle) (d' : Z) (j : string) :
  consistent w →
  let w' := (addToRemoveQueue i d w).2 in
  toastTimeouts w' = <[i := next_handle w]> (toastTimeouts w)
  ∧ (timers w' !! h' = Some (d', j)
     ↔ if decide (j = i)
       then h' = next_handle w ∧ d' = default TOAST_REMOVE_DELAY d
       else timers w !! h' = Some (d', j)).
Proof.
  intros Hw w'. split.
  - apply addToRemoveQueue_toastTimeouts.
  - by apply addToRemoveQueue_timers_lookup.
Qed.

Lemma removeFromRemoveQueue_timers_lookup i w h' d' j :
  consistent w →
  timers (removeFromRemoveQueue i w).2 !! h' = Some (d', j)
  ↔ j ≠ i ∧ timers w !! h' = Some (d', j).
Proof.
  intros (H1 & H2 & H3). rewrite removeFromRemoveQueue_timers.
  destruct (toastTimeouts w !! i) as [h0|] eqn:Hi.
  - destruct (backed_lookup w i h0 H2 Hi) as [d0 Hh0].
    rewrite lookup_delete_Some. split.
    + intros [Hne Hold]. split; [|done]. intros ->.
      apply (registered_lookup w) in Hold; [|done]. congruence.
    + intros [Hne Hold]. split; [|done]. intros ->. congruence.
  - split; [|by intros [_ ?]]. intros Hold. split; [|done]. intros ->.
    apply (registered_lookup w) in Hold; [|done]. congruence.
Qed.

Lemma removeFromRemoveQueue_again i w :
  (removeFromRemoveQueue i (removeFromRemoveQueue i w).2).2
  = (removeFromRemoveQueue i w).2.
Proof.
  pose proof (removeFromRemoveQueue_toastTimeouts i w) as Hreg.
  set (w1 := (removeFromRemoveQueue i w).2) in *.
  unfold removeFromRemoveQueue at 1. rewrite bind_run. cbn [gets fst snd].
  by rewrite Hreg, lookup_delete_eq.
Qed.

(** X5.  Cancelling the removal of an id: in a state where registry and host
    agree, after [removeFromRemoveQueue(i)] the registry has no entry for
    [i], no callback for [i] is pending, and the callbacks of every other id
    are pending as before.  Cancelling again changes nothing. *)
Theorem removeFromRemoveQueue_cancels (w : World) (i : string)
    (h' : handle) (d' : Z) (j : string) :
  consistent w →
  let w' := (removeFromRemoveQueue i w).2 in
  toastTimeouts w' = delete i (toastTimeouts w)
  ∧ (timers w' !! h' = Some (d', j) ↔ j ≠ i ∧ timers w !! h' = Some (d', j))
  ∧ (removeFromRemoveQueue i w').2 = w'.
Proof.
  intros Hw w'. split_and!.
  - apply removeFromRemoveQueue_toastTimeouts.
  - by apply removeFromRemoveQueue_timers_lookup.
  - apply removeFromRemoveQueue_again.
Qed.

Lemma toast_other_timers t w h d j :
  consistent w →
  timers w !! h = Some (d, j) → j ≠ (toast t w).1 →
  timers (toast t w).2 !! h = Some (d, j).
Proof.
  intros (H1 & H2 & H3) Hh Hj.
  destruct (decide (t_duration t = Some 0%Z)) as [Hd|Hd].
  - by rewrite (proj1 (toast_persistent_timers t w Hd)).
  - rewrite (proj2 (toast_arms t w Hd)).
    rewrite lookup_insert_ne.
    2:{ apply H3 in Hh. cbn beta in Hh. lia. }
    destruct (toastTimeouts w !! (toast t w).1) as [h0|] eqn:Hi; [|done].
    rewrite lookup_delete_ne; [done|]. intros ->.
    destruct (backed_lookup w _ _ H2 Hi) as [d0 Hh0]. congruence.
Qed.

(** X6.  Creating a toast cancels no timer of another toast.  In every state
    the module reaches from its initial state, a callback pending for a toast
    id other than the new one is still pending after [toast]: also the timer
    of a toast that the new one pushes out of the list of five. *)
Theorem toast_keeps_other_timers (es : list Event) (t : Toast)
    (h : handle) (d : Z) (j : string) :
  let w := run es init in
  timers w !! h = Some (d, j) →
  j ≠ (toast t w).1 →
  timers (toast t w).2 !! h = Some (d, j).
Proof.
  intros w. apply toast_other_timers. apply consistent_run, consistent_init.
Qed.

(** ** Listeners *)

Lemma forEach_notify ls w :
  (forEach notify ls w).2
  = set_rendered (rendered w ++ ((λ l, (l, memoryState w)) <$> ls)) w.
Proof.
  revert w. induction ls as [|l ls IH]; intros w.
  - cbn. rewrite app_nil_r. by destruct w.
  - cbn [forEach]. rewrite bind_run, IH. unfold notify. unfold_M.
    rewrite <-app_assoc. by destruct w.
Qed.

(** X7.  [dispatch] calls every listener once, in the order of subscription,
    each with the state the reducer has just returned, after that state is
    stored; it does not change who is subscribed. *)
Theorem dispatch_notifies (a : Action) (w : World) :
  let w' := (dispatch a w).2 in
  rendered w'
  = rendered w ++ ((λ l, (l, memoryState w')) <$> listeners w)
  ∧ memoryState w' = (reducer (memoryState w) a w).1
  ∧ listeners w' = listeners w.
Proof.
  intros w'. subst w'.
  assert (rendered (reducer (memoryState w) a w).2 = rendered w) as Hr
    by (apply (reducer_keeps rendered); by intros ? []).
  assert (listeners (reducer (memoryState w) a w).2 = listeners w) as Hl
    by (apply (reducer_keeps listeners); by intros ? []).
  split_and!; [|apply dispatch_memoryState|].
  - rewrite dispatch_memoryState. unfold dispatch. rewrite !bind_run.
    cbn [gets modify fst snd]. rewrite forEach_notify.
    destruct (reducer (memoryState w) a w) as [s' w1]. cbn in *.
    by rewrite Hr, Hl.
  - unfold dispatch. rewrite !bind_run.
    cbn [gets modify fst snd]. rewrite forEach_notify.
    destruct (reducer (memoryState w) a w) as [s' w1]. cbn in *. done.
Qed.

Lemma remove_first_notin l ls : l ∉ ls → remove_first l ls = ls.
Proof.
  induction ls as [|x ls IH]; [done|]. intros Hl.
  apply not_elem_of_cons in Hl as [Hne Hl]. cbn.
  rewrite decide_False by done. by rewrite IH.
Qed.

Lemma remove_first_snoc l ls : l ∉ ls → remove_first l (ls ++ [l]) = ls.
Proof.
  induction ls as [|x ls IH]; intros Hl.
  - cbn. by rewrite decide_True.
  - apply not_elem_of_cons in Hl as [Hne Hl]. cbn.
    rewrite decide_False by done. by rewrite IH.
Qed.

Lemma remove_first_filter l ls :
  filter (λ x, x ≠ l) (remove_first l ls) = filter (λ x, x ≠ l) ls.
Proof.
  induction ls as [|x ls IH]; [done|]. cbn [remove_first].
  destruct (decide (x = l)) as [->|Hx].
  - by rewrite filter_cons_False by (by intros ?).
  - by rewrite !filter_cons_True, IH by done.
Qed.

(** X8.  Mounting a [useToast] and unmounting it again leaves the module as
    it was: when the listener is not yet subscribed, [unsubscribe] after
    [subscribe] gives back the same world, the list of listeners included. *)
Theorem subscribe_unsubscribe (w : World) (l : listener) :
  l ∉ listeners w →
  (unsubscribe l (subscribe l w).2).2 = w.
Proof.
  intros Hl. unfold unsubscribe, subscribe. unfold_M.
  rewrite remove_first_snoc by done. by destruct w.
Qed.

Lemma remove_first_split l ls :
  l ∈ ls →
  ∃ l1 l2, ls = l1 ++ l :: l2 ∧ (l ∉ l1) ∧ remove_first l ls = l1 ++ l2.
Proof.
  induction ls as [|x ls IH]; intros Hl; [by apply elem_of_nil in Hl|].
  cbn [remove_first]. destruct (decide (x = l)) as [->|Hx].
  - exists [], ls. split_and!; [done| |done]. apply not_elem_of_nil.
  - apply elem_of_cons in Hl as [?|Hl]; [congruence|].
    destruct (IH Hl) as (l1 & l2 & -> & Hl1 & ->).
    exists (x :: l1), l2. split_and!; [done| |done].
    apply not_elem_of_cons. split; [congruence|done].
Qed.

(** X9.  Unsubscribing removes one registration of the listener, the first,
    and nothing else.  When the listener is subscribed, the list is cut in
    two at its first occurrence and the two parts are put together again;
    when it is not, the list stays as it is.  No other variable of the module
    changes. *)
Theorem unsubscribe_removes_one (w : World) (l : listener) :
  let w' := (unsubscribe l w).2 in
  (if bool_decide (l ∈ listeners w)
   then ∃ l1 l2, listeners w = l1 ++ l :: l2 ∧ (l ∉ l1)
                 ∧ listeners w' = l1 ++ l2
   else listeners w' = listeners w)
  ∧ filter (λ x, x ≠ l) (listeners w') = filter (λ x, x ≠ l) (listeners w)
  ∧ w' = set_listeners (listeners w') w.
Proof.
  intros w'. subst w'. unfold unsubscribe. unfold_M. split_and!.
  - case_bool_decide.
    + by apply remove_first_split.
    + by apply remove_first_notin.
  - apply remove_first_filter.
  - done.
Qed.

(** ** Teardown *)

Lemma cleanup_again w : (cleanup (cleanup w).2).2 = (cleanup w).2.
Proof.
  unfold cleanup, clearAllTimeouts. unfold_M. by rewrite map_fold_empty.
Qed.

(** X10.  [cleanup] empties the list of toasts, the list of listeners and the
    registry, and leaves the id counter where it was (ids are not handed out
    again after a teardown); in a state reached from the initial one no
    timer is left pending at the host.  A second [cleanup] changes nothing. *)
Theorem cleanup_resets (w : World) (es : list Event) :
  let w' := (cleanup w).2 in
  toasts (memoryState w') = []
  ∧ listeners w' = []
  ∧ toastTimeouts w' = ∅
  ∧ count w' = count w
  ∧ timers (cleanup (run es init)).2 = ∅
  ∧ (cleanup w').2 = w'.
Proof.
  intros w'. split_and!; [done..| |apply cleanup_again].
  unfold cleanup. unfold_M. apply clearAllTimeouts_registered.
  apply registered_run, registered_empty. done.
Qed.

(** ** The presets *)

Lemma toast_next_handle_persistent t w :
  t_duration t = Some 0%Z → next_handle (toast t w).2 = next_handle w.
Proof.
  intros Hd. unfold toast. rewrite !bind_run, Hd. cbn [mret M_ret snd].
  rewrite bool_decide_eq_false_2 by (by intros []).
  cbn [mret M_ret snd]. unfold dispatch. rewrite !bind_run.
  cbn [gets modify fst snd].
  rewrite (keeps_forEach next_handle notify) by (intros l; unfold notify; frame).
  by destruct w.
Qed.

(** X11.  [toastError] makes a persistent toast whatever duration its caller
    passes: the toast it adds has [duration] 0 and the variant
    ["destructive"], it is the first of the list, and no timer is armed: the
    registry, the host's timers and the next handle are as before. *)
Theorem toastError_is_persistent (t : Toast) (w : World) :
  let w' := (toastError t w).2 in
  let o := created (with_duration 0 (with_variant "destructive" t)) w in
  toasts (memoryState w') = take TOAST_LIMIT (o :: toasts (memoryState w))
  ∧ id (props o) = (toastError t w).1
  ∧ duration (props o) = Some 0%Z
  ∧ variant (props o) = Some "destructive"
  ∧ open (props o) = Some true
  ∧ timers w' = timers w
  ∧ toastTimeouts w' = toastTimeouts w
  ∧ next_handle w' = next_handle w.
Proof.
  intros w' o. subst w' o. unfold toastError.
  set (t' := with_duration 0 (with_variant "destructive" t)).
  assert (t_duration t' = Some 0%Z) as Hd by done.
  destruct (toast_persistent_timers t' w Hd) as [Hts Hreg].
  split_and!; try done.
  - by rewrite toast_memoryState.
  - by apply toast_next_handle_persistent.
Qed.

(** X12.  [toastWarning] arms a removal timer of 7000 ms whatever duration
    its caller passes, and [toastSuccess] and [toastInfo] arm one of the
    caller's duration, or of 5000 ms when there is none; the timer is
    registered under the id of the new toast, whose variant is ["default"]. *)
Theorem toastWarning_lasts_seven_seconds (t : Toast) (w : World) :
  let w' := (toastWarning t w).2 in
  let i := (toastWarning t w).1 in
  toastTimeouts w' !! i = Some (next_handle w)
  ∧ timers w' !! next_handle w = Some (7000%Z, i)
  ∧ variant (props (created (with_duration 7000 (with_variant "default" t)) w))
    = Some "default"
  ∧ (if bool_decide (t_duration t = Some 0%Z)
     then timers (toastSuccess t w).2 = timers w
          ∧ timers (toastInfo t w).2 = timers w
     else timers (toastSuccess t w).2 !! next_handle w
          = Some (default TOAST_REMOVE_DELAY (t_duration t), (toastSuccess t w).1)
          ∧ timers (toastInfo t w).2 !! next_handle w
            = Some (default TOAST_REMOVE_DELAY (t_duration t), (toastInfo t w).1)).
Proof.
  intros w' i. subst w' i. unfold toastWarning, toastSuccess, toastInfo.
  set (t7 := with_duration 7000 (with_variant "default" t)).
  set (td := with_variant "default" t).
  assert (t_duration t7 ≠ Some 0%Z) as H7 by done.
  destruct (toast_arms t7 w H7) as [Hreg Hts].
  split_and!; try done.
  - rewrite Hreg. apply lookup_insert_eq.
  - rewrite Hts. apply lookup_insert_eq.
  - assert (t_duration td = t_duration t) as Hd by done.
    case_bool_decide as H0.
    + assert (t_duration td = Some 0%Z) as H0' by congruence.
      by rewrite (proj1 (toast_persistent_timers td w H0')).
    + assert (t_duration td ≠ Some 0%Z) as H0' by congruence.
      rewrite (proj2 (toast_arms td w H0')), Hd. split; apply lookup_insert_eq.
Qed.

(** ** The ids of the store *)

Lemma updated_ids i p l l' :
  Forall2 (updated i p) l l' → (id ∘ props) <$> l' = (id ∘ props) <$> l.
Proof.
  induction 1 as [|t t' l l' Ht _ IH]; [done|].
  rewrite !fmap_cons, IH. f_equal. unfold updated in Ht.
  destruct (String.eqb (id (props t)) i) eqn:Hti; [|by subst t'].
  apply String.eqb_eq in Hti. cbn. by rewrite Ht.
Qed.

Lemma dismissed_ids toastId l l' :
  Forall2 (dismissed toastId) l l' → (id ∘ props) <$> l' = (id ∘ props) <$> l.
Proof.
  induction 1 as [|t t' l l' Ht _ IH]; [done|].
  rewrite !fmap_cons, IH. f_equal. unfold dismissed in Ht. cbn.
  destruct toastId as [i|]; [|by rewrite Ht].
  destruct (String.eqb (id (props t)) i); [by rewrite Ht|by subst t'].
Qed.

Lemma filter_ids i (l : list ToasterToast) :
  (id ∘ props) <$> filter (λ t, id (props t) ≠ i) l
  = filter (λ s, s ≠ i) ((id ∘ props) <$> l).
Proof.
  induction l as [|t l IH]; [done|]. rewrite fmap_cons. cbn [compose].
  destruct (decide (id (props t) = i)) as [Heq|Hne].
  - by rewrite !filter_cons_False by (by intros ?).
  - by rewrite !filter_cons_True, fmap_cons, IH by done.
Qed.

Lemma reducer_ids state a w :
  match a with ADD_TOAST _ => False | _ => True end →
  ids (reducer state a w).1 `sublist_of` ids state.
Proof.
  intros Ha. unfold ids. destruct a as [t|i p|toastId|[i|]|]; [done|..].
  - by rewrite (updated_ids _ _ _ _ (reducer_UPDATE state i p w)).
  - by rewrite (dismissed_ids _ _ _ (reducer_DISMISS state toastId w)).
  - rewrite reducer_REMOVE. cbn [fst toasts]. rewrite filter_ids.
    apply sublist_filter.
  - apply sublist_nil_l.
  - apply sublist_nil_l.
Qed.

(** ** What leaves a persistent toast alone *)

Lemma no_timer_for_shrink i w w' :
  (∀ h cb, timers w' !! h = Some cb → timers w !! h = Some cb) →
  no_timer_for i w → no_timer_for i w'.
Proof. intros Hsub Hw h cb Hh. by apply (Hw h cb), Hsub. Qed.

Lemma no_timer_for_addToRemoveQueue i j d w :
  j ≠ i → no_timer_for i w → no_timer_for i (addToRemoveQueue j d w).2.
Proof.
  intros Hji Hw h cb. rewrite addToRemoveQueue_timers.
  destruct (decide (h = next_handle w)) as [->|Hh].
  - rewrite lookup_insert_eq. by intros [= <-].
  - rewrite lookup_insert_ne by done. intros Hcb. apply (Hw h cb).
    destruct (toastTimeouts w !! j); [|done].
    by apply lookup_delete_Some in Hcb as [_ ?].
Qed.

Lemma no_timer_for_removeFromRemoveQueue i j w :
  no_timer_for i w → no_timer_for i (removeFromRemoveQueue j w).2.
Proof.
  apply no_timer_for_shrink. intros h cb. rewrite removeFromRemoveQueue_timers.
  destruct (toastTimeouts w !! j); [|done].
  intros Hcb. by apply lookup_delete_Some in Hcb as [_ ?].
Qed.

Lemma other_spec i j : other i j = true → j ≠ i ∧ String.eqb j "" = false.
Proof.
  unfold other. intros [Hji Hj]%bool_decide_eq_true.
  split; [done|]. by apply String.eqb_neq.
Qed.

(** The reducer arms no timer for [i] unless it is asked to dismiss [i], every
    toast, or the empty id. *)
Lemma no_timer_for_reducer i state a w :
  match a with
  | DISMISS_TOAST (Some j) => other i j = true
  | DISMISS_TOAST None => False
  | _ => True
  end →
  no_timer_for i w → no_timer_for i (reducer state a w).2.
Proof.
  intros Ha Hw. destruct a as [t|j p|[j|]|toastId|]; [| | |done| |].
  - done.
  - destruct (reducer_UPDATE_world state j p w) as [r ->]. by destruct w.
  - destruct (other_spec i j Ha) as [Hji Hj].
    unfold no_timer_for.
    rewrite (reducer_DISMISS_world timers) by (by intros ? []).
    unfold removals, truthy. rewrite Hj. cbn [negb].
    by apply no_timer_for_addToRemoveQueue.
  - by destruct toastId.
  - revert Hw. apply no_timer_for_shrink. intros h cb.
    rewrite reducer_CLEAR_ALL_cancels, clearAllTimeouts_timers.
    intros Hcb. by apply map_lookup_filter_Some in Hcb as [? _].
Qed.

Lemma spares_action_ids i a state w :
  spares_action i a = true →
  i ∈ ids state → i ∈ ids (reducer state a w).1.
Proof.
  intros Ha Hi. unfold ids in *.
  destruct a as [t|j p|[j|]|[j|]|]; try done.
  - by rewrite (updated_ids _ _ _ _ (reducer_UPDATE state j p w)).
  - by rewrite (dismissed_ids _ _ _ (reducer_DISMISS state (Some j) w)).
  - cbn in Ha. apply bool_decide_eq_true in Ha.
    rewrite reducer_REMOVE. cbn [fst toasts]. rewrite filter_ids.
    apply list_elem_of_filter. split; [congruence|done].
Qed.

(** The toast of id [i] is in the store and no pending callback names it. *)
Lemma dispatch_spares i a w :
  spares_action i a = true →
  no_timer_for i w ∧ i ∈ ids (memoryState w) →
  no_timer_for i (dispatch a w).2 ∧ i ∈ ids (memoryState (dispatch a w).2).
Proof.
  intros Ha [Hno Hi]. split.
  - unfold no_timer_for. rewrite dispatch_timers.
    apply no_timer_for_reducer; [|done]. by destruct a as [| |[|]| |].
  - rewrite dispatch_memoryState. by apply spares_action_ids.
Qed.

Lemma toast_dismiss_spares i j w :
  other i j = true →
  no_timer_for i w ∧ i ∈ ids (memoryState w) →
  no_timer_for i (toast_dismiss j w).2
  ∧ i ∈ ids (memoryState (toast_dismiss j w).2).
Proof.
  intros Hj [Hno Hi]. unfold toast_dismiss. rewrite bind_run.
  apply dispatch_spares; [done|]. split.
  - by apply no_timer_for_removeFromRemoveQueue.
  - by rewrite removeFromRemoveQueue_keeps_memoryState.
Qed.

Lemma step_spares i e w :
  spares i e = true →
  no_timer_for i w ∧ i ∈ ids (memoryState w) →
  no_timer_for i (step e w).2 ∧ i ∈ ids (memoryState (step e w).2).
Proof.
  intros He [Hno Hi].
  destruct e as [a|h|t|j p|j|toastId| |hd o|l|l| |s a]; cbn [step]; try done.
  - by apply dispatch_spares.
  - split.
    + revert Hno. apply no_timer_for_shrink. intros h' cb.
      rewrite fire_timers. intros Hcb.
      by apply lookup_delete_Some in Hcb as [_ ?].
    + rewrite fire_memoryState.
      destruct (timers w !! h) as [[d k]|] eqn:Hh; [|done].
      unfold ids. cbn [toasts]. rewrite filter_ids.
      apply list_elem_of_filter. split; [|done].
      intros ->. by apply Hno in Hh.
  - by apply dispatch_spares.
  - by apply toast_dismiss_spares.
  - destruct toastId as [j|]; [|done]. cbn in He.
    destruct (other_spec i j He) as [Hji Hj].
    unfold useToast_dismiss, truthy. rewrite Hj. cbn [negb].
    by apply (toast_dismiss_spares i j).
  - destruct hd as [j|k]; [destruct o|]; cbn [call_onOpenChange]; try done.
    by apply toast_dismiss_spares.
  - rewrite bind_run. cbn [mret M_ret snd]. split.
    + apply no_timer_for_reducer; [|done]. by destruct a as [| |[|]| |].
    + by rewrite reducer_keeps_memoryState.
Qed.

Lemma run_spares i es w :
  Forall (λ e, spares i e = true) es →
  no_timer_for i w ∧ i ∈ ids (memoryState w) →
  i ∈ ids (memoryState (run es w)).
Proof.
  revert w. induction es as [|e es IH]; intros w Hes Hw; [by destruct Hw|].
  apply Forall_cons in Hes as [He Hes].
  unfold run. cbn [forEach]. rewrite bind_run.
  apply IH; [done|]. by apply step_spares.
Qed.

(** C5, as the code has it.  Creating a toast with [duration] 0 arms no timer:
    the registry and the host's timers are as before.  If no pending callback
    names its id when it is created, the toast is still in the store after
    any sequence of timers firing, however long one waits, and a toast of its
    id stays in the store through every sequence of events other than a
    dismiss of that id, of every toast or with the empty id, a
    [REMOVE_TOAST] of that id or of every toast, [CLEAR_ALL_TOASTS],
    [cleanup] and the creation of further toasts.  A manual dismiss does arm
    a removal timer for its id, and when that timer fires the toast is
    removed; a [REMOVE_TOAST] of its id removes it at once. *)
Theorem persistent_toast (t : Toast) (w : World) (hs : list handle)
    (es : list Event) :
  t_duration t = Some 0%Z →
  no_timer_for (toast t w).1 w →
  Forall (λ e, spares (toast t w).1 e = true) es →
  let i := (toast t w).1 in
  let w1 := (toast t w).2 in
  timers w1 = timers w
  ∧ toastTimeouts w1 = toastTimeouts w
  ∧ id (props (created t w)) = i
  ∧ created t w ∈ toasts (memoryState (run (Fire <$> hs) w1))
  ∧ i ∈ ids (memoryState (run es w1))
  ∧ (∃ h d, let w2 := (toast_dismiss i w1).2 in
            toastTimeouts w2 !! i = Some h
            ∧ timers w2 !! h = Some (d, i)
            ∧ absent i (memoryState (fire h w2).2))
  ∧ absent i (memoryState (dispatch (REMOVE_TOAST (Some i)) w1).2).
Proof.
  intros Hd Hno Hes i w1.
  destruct (toast_persistent_timers t w Hd) as [Hts Hreg].
  assert (no_timer_for i w1) as Hno1
    by (unfold no_timer_for; subst w1; by rewrite Hts).
  split_and!; try done.
  - apply fires_keep_toast; [done|apply created_head].
  - apply run_spares; [done|]. split; [done|].
    unfold ids. apply list_elem_of_fmap. exists (created t w).
    split; [done|apply created_head].
  - destruct (toast_dismiss_arms i w1) as (h & Hh & Hpending).
    { apply genId_nonempty. }
    exists h, TOAST_REMOVE_DELAY. split_and!; [done..|]. by eapply fire_removes.
  - apply dispatch_REMOVE_absent.
Qed.

Lemma dispatch_keeps_count a : keeps count (dispatch a).
Proof.
  unfold dispatch.
  apply keeps_bind; [apply keeps_gets|intros s].
  apply keeps_bind; [apply reducer_keeps; by intros ? []|intros s'].
  unfold notify. frame.
Qed.

Lemma removeFromRemoveQueue_keeps_count i : keeps count (removeFromRemoveQueue i).
Proof. unfold removeFromRemoveQueue, clearTimeout. frame. Qed.

Lemma addToRemoveQueue_keeps_count i d : keeps count (addToRemoveQueue i d).
Proof. unfold addToRemoveQueue, clearTimeout, setTimeout. frame. Qed.

Lemma generated_ids_sub n w w' :
  count w' = count w →
  ids (memoryState w') `sublist_of` ids (memoryState w) →
  generated_ids n w → generated_ids (n + 1) w'.
Proof.
  intros Hc Hsub (Hn & Hall & Hnd). unfold generated_ids. rewrite Hc.
  split; [lia|]. split; [|by eapply sublist_NoDup].
  apply Forall_forall. intros s Hs.
  apply (sublist_subseteq _ _ Hsub) in Hs.
  by apply (proj1 (Forall_forall _ _) Hall).
Qed.

Lemma dispatch_generated_ids n a w :
  match a with ADD_TOAST _ => False | _ => True end →
  generated_ids n w → generated_ids (n + 1) (dispatch a w).2.
Proof.
  intros Ha. apply generated_ids_sub; [apply dispatch_keeps_count|].
  rewrite dispatch_memoryState. by apply reducer_ids.
Qed.

Lemma toast_count t w :
  count (toast t w).2 = Z.rem (count w + 1) MAX_SAFE_INTEGER.
Proof.
  unfold toast. rewrite !bind_run. cbn [mret M_ret snd].
  match goal with
  | |- count (?m ?w1).2 = _ =>
      assert (keeps count m) as ->
        by (case_bool_decide;
              [apply addToRemoveQueue_keeps_count|apply keeps_ret])
  end.
  rewrite dispatch_keeps_count. by destruct w.
Qed.

Lemma toast_generated_ids n t w :
  (n + 1 < MAX_SAFE_INTEGER)%Z →
  generated_ids n w → generated_ids (n + 1) (toast t w).2.
Proof.
  intros Hmax (Hn & Hall & Hnd).
  assert (Z.rem (count w + 1) MAX_SAFE_INTEGER = (count w + 1)%Z) as Hrem
    by (apply Z.rem_small; lia).
  unfold generated_ids. rewrite toast_count, Hrem.
  unfold ids in *. rewrite toast_memoryState. cbn [toasts].
  assert (∀ l : list ToasterToast,
            (id ∘ props) <$> take TOAST_LIMIT l
            = take TOAST_LIMIT ((id ∘ props) <$> l)) as Htake
    by (intros l; by rewrite fmap_take).
  rewrite Htake, fmap_cons. cbn [compose created props id].
  rewrite genId_id, Hrem.
  split; [lia|]. split.
  - apply Forall_take. constructor.
    + exists (count w + 1)%Z. split; [lia|done].
    + eapply Forall_impl; [exact Hall|]. intros s (k & Hk & ->).
      exists k. split; [lia|done].
  - eapply sublist_NoDup; [|apply sublist_take].
    apply NoDup_cons. split; [|done]. intros Hin.
    apply (proj1 (Forall_forall _ _) Hall) in Hin as (k & Hk & Heq).
    apply (inj pretty) in Heq. lia.
Qed.

Lemma generated_ids_same n w w' :
  count w' = count w → memoryState w' = memoryState w →
  generated_ids n w → generated_ids n w'.
Proof.
  destruct w, w'. cbn. intros -> ->. done.
Qed.

Lemma toast_dismiss_generated_ids n i w :
  generated_ids n w → generated_ids (n + 1) (toast_dismiss i w).2.
Proof.
  intros Hw. unfold toast_dismiss. rewrite bind_run.
  apply generated_ids_sub with (w := (removeFromRemoveQueue i w).2).
  - apply dispatch_keeps_count.
  - rewrite dispatch_memoryState. by apply reducer_ids.
  - apply (generated_ids_same n w); [|  |done].
    + apply removeFromRemoveQueue_keeps_count.
    + apply removeFromRemoveQueue_keeps_memoryState.
Qed.

Lemma generated_ids_weaken n m w :
  (n ≤ m)%Z → generated_ids n w → generated_ids m w.
Proof. intros Hnm (Hn & Hall & Hnd). split; [lia|done]. Qed.

Lemma step_generated_ids n e w :
  raw_add e = false →
  (n + 1 < MAX_SAFE_INTEGER)%Z →
  generated_ids n w → generated_ids (n + 1) (step e w).2.
Proof.
  intros He Hmax Hw.
  destruct e as [a|h|t|i p|i|toastId| |hd o|l|l| |s a]; cbn [step].
  - apply dispatch_generated_ids; [|done]. by destruct a.
  - unfold fire. rewrite bind_run. cbn [gets fst snd].
    destruct (timers w !! h) as [[d i]|];
      [|by apply (generated_ids_weaken n); [lia|]].
    rewrite !bind_run. cbn [gets modify fst snd].
    apply (generated_ids_sub n w); [|..|done].
    + by rewrite dispatch_keeps_count.
    + rewrite dispatch_memoryState. by apply reducer_ids.
  - rewrite bind_run. cbn [mret M_ret snd]. by apply toast_generated_ids.
  - by apply dispatch_generated_ids.
  - by apply toast_dismiss_generated_ids.
  - unfold useToast_dismiss. rewrite bind_run.
    set (w1 := (match toastId with
                | Some i => if truthy toastId then removeFromRemoveQueue i
                            else mret ()
                | None => mret ()
                end w).2).
    assert (count w1 = count w ∧ memoryState w1 = memoryState w) as [Hc Hm].
    { subst w1. destruct toastId as [i|]; [destruct (truthy _)|]; try done.
      split; [apply removeFromRemoveQueue_keeps_count
             |apply removeFromRemoveQueue_keeps_memoryState]. }
    apply (generated_ids_sub n w); [|..|done].
    + by rewrite dispatch_keeps_count.
    + rewrite dispatch_memoryState, <-Hm. by apply reducer_ids.
  - by apply dispatch_generated_ids.
  - destruct hd as [i|k]; [destruct o|]; cbn [call_onOpenChange];
      first [by apply (generated_ids_weaken n); [lia|]
            |by apply toast_dismiss_generated_ids].
  - by apply (generated_ids_weaken n); [lia|].
  - by apply (generated_ids_weaken n); [lia|].
  - destruct Hw as (Hn & _ & _). unfold cleanup. unfold_M.
    unfold generated_ids, ids. simpl. split; [lia|]. split; constructor.
  - rewrite bind_run. cbn [mret M_ret snd].
    apply (generated_ids_weaken n); [lia|].
    apply (generated_ids_same n w); [| |done].
    + apply reducer_keeps; by intros ? [].
    + apply reducer_keeps_memoryState.
Qed.

Lemma run_generated_ids es n w :
  Forall (λ e, raw_add e = false) es →
  (n + Z.of_nat (length es) < MAX_SAFE_INTEGER)%Z →
  generated_ids n w →
  generated_ids (n + Z.of_nat (length es)) (run es w).
Proof.
  revert n w. induction es as [|e es IH]; intros n w Hes Hmax Hw.
  - cbn. by rewrite Z.add_0_r.
  - apply Forall_cons in Hes as [He Hes]. cbn [length] in *.
    unfold run. cbn [forEach]. rewrite bind_run.
    replace (n + Z.of_nat (S (length es)))%Z
      with ((n + 1) + Z.of_nat (length es))%Z by lia.
    apply IH; [done|lia|]. apply step_generated_ids; [done|lia|done].
Qed.

(** X13.  The toasts of the store have pairwise distinct ids.  This holds
    after any sequence of calls, dispatches and timer firings from the
    initial state, as long as every toast is added by [toast] (no
    [ADD_TOAST] is dispatched with a toast made elsewhere) and fewer than
    [MAX_SAFE_INTEGER] events have happened. *)
Theorem store_ids_distinct (es : list Event) :
  Forall (λ e, raw_add e = false) es →
  (Z.of_nat (length es) < MAX_SAFE_INTEGER)%Z →
  NoDup (ids (memoryState (run es init))).
Proof.
  intros Hes Hlen.
  destruct (run_generated_ids es 0 init Hes) as (_ & _ & Hnd); [lia| |done].
  split; [done|]. split; constructor.
Qed.

(** ** Dismissing *)

(** X14.  Dispatching [DISMISS_TOAST] with an id keeps the length of the
    list; at every position, a toast of that id gets [open = false] and keeps
    the value of each of its other fields, and a toast of another id is the
    same object as before. *)
Theorem dismiss_closes_named (w : World) (i : string) (n : nat)
    (t : ToasterToast) :
  toasts (memoryState w) !! n = Some t →
  let l' := toasts (memoryState (dispatch (DISMISS_TOAST (Some i)) w).2) in
  length l' = length (toasts (memoryState w))
  ∧ ∃ t', l' !! n = Some t'
      ∧ if decide (id (props t) = i)
        then open (props t') = Some false
             ∧ id (props t') = id (props t)
             ∧ title (props t') = title (props t)
             ∧ description (props t') = description (props t)
             ∧ action (props t') = action (props t)
             ∧ duration (props t') = duration (props t)
             ∧ variant (props t') = variant (props t)
             ∧ onOpenChange (props t') = onOpenChange (props t)
        else t' = t.
Proof.
  intros Hn l'. subst l'. rewrite dispatch_memoryState.
  pose proof (reducer_DISMISS (memoryState w) (Some i) w) as Hdis.
  split; [symmetry; by eapply Forall2_length|].
  destruct (Forall2_lookup_l _ _ _ _ _ Hdis Hn) as (t' & Hn' & Ht).
  exists t'. split; [done|]. unfold dismissed in Ht.
  destruct (decide (id (props t) = i)) as [Heq|Hne].
  - apply String.eqb_eq in Heq as Heqb. rewrite Heqb in Ht. by rewrite Ht.
  - apply String.eqb_neq in Hne. by rewrite Hne in Ht.
Qed.

Lemma addToRemoveQueue_other i d j w :
  consistent w → j ≠ i →
  toastTimeouts (addToRemoveQueue i d w).2 !! j = toastTimeouts w !! j
  ∧ ∀ h, toastTimeouts w !! j = Some h →
         timers (addToRemoveQueue i d w).2 !! h = timers w !! h.
Proof.
  intros (H1 & H2 & H3) Hji.
  rewrite addToRemoveQueue_toastTimeouts, addToRemoveQueue_timers.
  split; [by rewrite lookup_insert_ne|]. intros h Hj.
  destruct (backed_lookup w j h H2 Hj) as [d' Hh].
  rewrite lookup_insert_ne.
  2:{ apply H3 in Hh. cbn beta in Hh. lia. }
  destruct (toastTimeouts w !! i) as [h0|] eqn:Hi; [|done].
  rewrite lookup_delete_ne; [done|]. intros ->.
  destruct (backed_lookup w i h H2 Hi) as [d0 Hh0]. congruence.
Qed.

Lemma scheduleAll_other (l : list ToasterToast) j w :
  consistent w → j ∉ (id ∘ props) <$> l →
  let w' := (forEach (λ toast, addToRemoveQueue (id (props toast))
                                                (duration (props toast))) l w).2 in
  toastTimeouts w' !! j = toastTimeouts w !! j
  ∧ ∀ h, toastTimeouts w !! j = Some h → timers w' !! h = timers w !! h.
Proof.
  revert w. induction l as [|t l IH]; intros w Hw Hj; [done|].
  rewrite fmap_cons in Hj. apply not_elem_of_cons in Hj as [Hne Hj].
  cbn [forEach]. cbv zeta. rewrite bind_run.
  set (w1 := (addToRemoveQueue (id (props t)) (duration (props t)) w).2).
  assert (consistent w1) as Hw1 by by apply consistent_addToRemoveQueue.
  destruct (addToRemoveQueue_other (id (props t)) (duration (props t)) j w Hw Hne)
    as [Hr Ht].
  destruct (IH w1 Hw1 Hj) as [Hr' Ht']. fold w1 in Hr, Ht.
  split; [by rewrite Hr', Hr|].
  intros h Hh. rewrite Ht' by (by rewrite Hr). by apply Ht.
Qed.

Lemma scheduleAll_each (l : list ToasterToast) t w :
  consistent w → NoDup ((id ∘ props) <$> l) → t ∈ l →
  let w' := (forEach (λ toast, addToRemoveQueue (id (props toast))
                                                (duration (props toast))) l w).2 in
  ∃ h, toastTimeouts w' !! id (props t) = Some h
       ∧ timers w' !! h
         = Some (default TOAST_REMOVE_DELAY (duration (props t)), id (props t)).
Proof.
  revert w. induction l as [|t0 l IH]; intros w Hw Hnd Ht;
    [by apply elem_of_nil in Ht|].
  rewrite fmap_cons in Hnd. apply NoDup_cons in Hnd as [Hnotin Hnd].
  cbn [forEach]. cbv zeta. rewrite bind_run.
  set (w1 := (addToRemoveQueue (id (props t0)) (duration (props t0)) w).2).
  assert (consistent w1) as Hw1 by by apply consistent_addToRemoveQueue.
  apply elem_of_cons in Ht as [->|Ht]; [|by apply IH].
  destruct (scheduleAll_other l (id (props t0)) w1 Hw1 Hnotin) as [Hr Hts].
  cbv zeta in Hr, Hts. exists (next_handle w).
  assert (toastTimeouts w1 !! id (props t0) = Some (next_handle w)) as Hreg1.
  { subst w1. rewrite addToRemoveQueue_toastTimeouts. apply lookup_insert_eq. }
  split; [by rewrite Hr|].
  rewrite (Hts _ Hreg1). subst w1. rewrite addToRemoveQueue_timers.
  apply lookup_insert_eq.
Qed.

(** X15.  Dismissing everything: in a state where registry and host agree and
    the toasts have distinct ids, after [DISMISS_TOAST] with no id every
    toast of the list has [open = false], and each toast that was in the list
    has a removal timer registered under its id whose delay is that toast's
    own duration, or 5000 ms when it has none. *)
Theorem dismiss_all_arms_each (w : World) (t : ToasterToast) :
  consistent w →
  NoDup (ids (memoryState w)) →
  t ∈ toasts (memoryState w) →
  let w' := (dispatch (DISMISS_TOAST None) w).2 in
  Forall (λ o, open (props o) = Some false) (toasts (memoryState w'))
  ∧ ids (memoryState w') = ids (memoryState w)
  ∧ ∃ h, toastTimeouts w' !! id (props t) = Some h
         ∧ timers w' !! h
           = Some (default TOAST_REMOVE_DELAY (duration (props t)),
                   id (props t)).
Proof.
  intros Hw Hnd Ht w'. subst w'.
  pose proof (reducer_DISMISS (memoryState w) None w) as Hdis.
  split_and!.
  - rewrite dispatch_memoryState.
    eapply Forall2_Forall_r; [exact Hdis|].
    apply Forall_true. intros o o' Ho. unfold dismissed in Ho. by rewrite Ho.
  - rewrite dispatch_memoryState. by apply dismissed_ids in Hdis.
  - rewrite dispatch_toastTimeouts, dispatch_timers.
    rewrite (reducer_DISMISS_world toastTimeouts),
      (reducer_DISMISS_world timers) by (by intros ? []).
    by apply scheduleAll_each.
Qed.

(** X16.  [UPDATE_TOAST] and [DISMISS_TOAST] neither add, drop, reorder nor
    re-key a toast: after either, the ids of the list are the same, in the
    same order. *)
Theorem update_dismiss_keep_ids (w : World) (i : string) (p : Partial)
    (toastId : option string) :
  ids (memoryState (dispatch (UPDATE_TOAST i p) w).2) = ids (memoryState w)
  ∧ ids (memoryState (dispatch (DISMISS_TOAST toastId) w).2)
    = ids (memoryState w).
Proof.
  rewrite !dispatch_memoryState. unfold ids. split.
  - eapply updated_ids, reducer_UPDATE.
  - eapply dismissed_ids, reducer_DISMISS.
Qed.

(** ** Updating *)

(** What [UPDATE_TOAST] does to the properties of one toast. *)
Lemma updated_props i p l l' :
  Forall2 (updated i p) l l' →
  props <$> l'
  = (λ q, if String.eqb (id q) i then spread q i p else q) <$> (props <$> l).
Proof.
  induction 1 as [|t t' l l' Ht _ IH]; [done|].
  rewrite !fmap_cons, IH. f_equal. unfold updated in Ht.
  destruct (String.eqb (id (props t)) i); [done|by subst t'].
Qed.

Lemma spread_spread q i p1 p2 :
  spread (spread q i p1) i p2 = spread q i (over p2 p1).
Proof.
  destruct p1 as [[?|] [?|] [?|] [?|] [?|] [?|] [?|]],
           p2 as [[?|] [?|] [?|] [?|] [?|] [?|] [?|]]; reflexivity.
Qed.

(** X17.  Updates of one toast compose: dispatching [UPDATE_TOAST] for an id
    with a partial toast [p1] and then with [p2] leaves every toast with the
    field values that a single update with [{ ...p1, ...p2 }] gives it; on a
    field they both carry, the later update wins. *)
Theorem update_twice (w : World) (i : string) (p1 p2 : Partial) :
  let w1 := (dispatch (UPDATE_TOAST i p1) w).2 in
  props <$> toasts (memoryState (dispatch (UPDATE_TOAST i p2) w1).2)
  = props <$> toasts (memoryState (dispatch (UPDATE_TOAST i (over p2 p1)) w).2).
Proof.
  intros w1. subst w1. rewrite !dispatch_memoryState.
  rewrite (updated_props _ _ _ _ (reducer_UPDATE _ i p2 _)).
  rewrite (updated_props _ _ _ _ (reducer_UPDATE _ i p1 _)).
  rewrite (updated_props _ _ _ _ (reducer_UPDATE _ i (over p2 p1) _)).
  rewrite <-list_fmap_compose. apply list_fmap_ext. intros _ q _. cbn.
  destruct (String.eqb (id q) i) eqn:Hq; [|by rewrite Hq].
  cbn [spread id]. rewrite String.eqb_refl. apply spread_spread.
Qed.

(** ** Ids and truthiness *)



(** ** Dismissing through the handle *)




(** ** Closed toasts leave the store *)

Lemma matched_removal_id state toastId t :
  t ∈ toasts state →
  match toastId with Some i => id (props t) = i | None => True end →
  id (props t) ∈ removal_ids state toastId.
Proof.
  intros Ht Hm. unfold removal_ids.
  assert (id (props t) ∈@{gset string}
            list_to_set ((id ∘ props) <$> toasts state)) as Hall.
  { apply elem_of_list_to_set, list_elem_of_fmap. by exists t. }
  destruct toastId as [i|]; [|done]. destruct (truthy _); [|done].
  subst i. by apply elem_of_singleton.
Qed.

Lemma dismiss_after_cancel w w1 toastId :
  memoryState w1 = memoryState w →
  (∀ j, Some j ≠ toastId → toastTimeouts w1 !! j = toastTimeouts w !! j) →
  closed_have_timer w →
  closed_have_timer (dispatch (DISMISS_TOAST toastId) w1).2.
Proof.
  intros Hm Hreg Hw. unfold closed_have_timer.
  rewrite dispatch_memoryState, dispatch_toastTimeouts.
  pose proof (reducer_DISMISS (memoryState w1) toastId w1) as Hdis.
  apply Forall_forall. intros t' Ht' Hclosed.
  apply list_elem_of_lookup in Ht' as [n Hn].
  destruct (Forall2_lookup_r _ _ _ _ _ Hdis Hn) as (t & Hnt & Htt').
  assert (t ∈ toasts (memoryState w1)) as Ht
    by (apply list_elem_of_lookup; by exists n).
  apply elem_of_dom.
  rewrite (reducer_DISMISS_world toastTimeouts) by (by intros ? []).
  rewrite removals_dom. unfold dismissed in Htt'.
  destruct toastId as [i|].
  - destruct (String.eqb (id (props t)) i) eqn:Hti.
    + apply String.eqb_eq in Hti. rewrite Htt'. cbn [closed id].
      apply elem_of_union_l. by apply matched_removal_id.
    + apply String.eqb_neq in Hti. subst t'.
      apply elem_of_union_r, elem_of_dom.
      rewrite Hreg by congruence. rewrite Hm in Ht.
      by apply (proj1 (Forall_forall _ _) Hw t Ht).
  - rewrite Htt'. cbn [closed id].
    apply elem_of_union_l. by apply matched_removal_id.
Qed.

Lemma closed_have_timer_sub w w' :
  toasts (memoryState w') ⊆ toasts (memoryState w) →
  (∀ t, t ∈ toasts (memoryState w') →
        is_Some (toastTimeouts w !! id (props t)) →
        is_Some (toastTimeouts w' !! id (props t))) →
  closed_have_timer w → closed_have_timer w'.
Proof.
  intros Hsub Hreg Hw. apply Forall_forall. intros t Ht Hc.
  apply Hreg; [done|].
  by apply (proj1 (Forall_forall _ _) Hw t (Hsub t Ht)).
Qed.

Lemma dispatch_closed_have_timer a w :
  tame (Dispatch a) = true →
  closed_have_timer w → closed_have_timer (dispatch a w).2.
Proof.
  intros Ha Hw. destruct a as [t|i p|toastId|toastId|]; [done|..].
  - cbn in Ha. apply bool_decide_eq_true in Ha.
    unfold closed_have_timer.
    rewrite dispatch_memoryState, dispatch_toastTimeouts.
    pose proof (reducer_UPDATE (memoryState w) i p w) as Hupd.
    destruct (reducer_UPDATE_world (memoryState w) i p w) as [r ->].
    replace (toastTimeouts (set_next_ref r w)) with (toastTimeouts w)
      by (by destruct w).
    apply Forall_forall. intros t' Ht' Hclosed.
    apply list_elem_of_lookup in Ht' as [n Hn].
    destruct (Forall2_lookup_r _ _ _ _ _ Hupd Hn) as (t & Hnt & Htt').
    assert (t ∈ toasts (memoryState w)) as Ht
      by (apply list_elem_of_lookup; by exists n).
    pose proof (proj1 (Forall_forall _ _) Hw t Ht) as Ht0.
    unfold updated in Htt'.
    destruct (String.eqb (id (props t)) i) eqn:Hti;
      [|subst t'; by apply Ht0].
    apply String.eqb_eq in Hti. rewrite Htt' in Hclosed |- *.
    cbn [spread id open] in *. rewrite Ha in Hclosed. cbn in Hclosed.
    rewrite <-Hti. by apply Ht0.
  - by apply (dismiss_after_cancel w w).
  - apply (closed_have_timer_sub w); [| |done].
    + rewrite dispatch_memoryState. destruct toastId as [i|].
      * rewrite reducer_REMOVE. cbn [fst toasts]. intros t Ht.
        by apply list_elem_of_filter in Ht as [_ ?].
      * rewrite reducer_REMOVE_all. cbn [fst toasts]. intros t Ht.
        by apply elem_of_nil in Ht.
    + intros t _. rewrite dispatch_toastTimeouts. by destruct toastId.
  - apply Forall_forall. intros t Ht.
    rewrite dispatch_memoryState in Ht. by apply elem_of_nil in Ht.
Qed.

Lemma fire_closed_have_timer h w :
  closed_have_timer w → closed_have_timer (fire h w).2.
Proof.
  intros Hw. apply (closed_have_timer_sub w); [| |done].
  - rewrite fire_memoryState. destruct (timers w !! h) as [[d i]|]; [|done].
    cbn [toasts]. intros t Ht. by apply list_elem_of_filter in Ht as [_ ?].
  - intros t. rewrite fire_memoryState, fire_toastTimeouts.
    destruct (timers w !! h) as [[d i]|]; [|done].
    cbn [toasts]. intros Ht. apply list_elem_of_filter in Ht as [Hne _].
    by rewrite lookup_delete_ne.
Qed.

Lemma toast_closed_have_timer t w :
  closed_have_timer w → closed_have_timer (toast t w).2.
Proof.
  intros Hw. unfold closed_have_timer. rewrite toast_memoryState.
  cbn [toasts]. apply Forall_take. constructor; [done|].
  eapply Forall_impl; [exact Hw|]. intros o Ho Hc.
  destruct (decide (t_duration t = Some 0%Z)) as [Hd|Hd].
  - rewrite (proj2 (toast_persistent_timers t w Hd)). by apply Ho.
  - rewrite (proj1 (toast_arms t w Hd)).
    destruct (decide ((toast t w).1 = id (props o))) as [->|Hne].
    + by rewrite lookup_insert_eq.
    + rewrite lookup_insert_ne by done. by apply Ho.
Qed.

Lemma toast_dismiss_closed_have_timer i w :
  closed_have_timer w → closed_have_timer (toast_dismiss i w).2.
Proof.
  intros Hw. unfold toast_dismiss. rewrite bind_run.
  apply (dismiss_after_cancel w); [| |done].
  - apply removeFromRemoveQueue_keeps_memoryState.
  - intros j Hj. rewrite removeFromRemoveQueue_toastTimeouts.
    apply lookup_delete_ne. congruence.
Qed.

Lemma step_closed_have_timer e w :
  tame e = true →
  closed_have_timer w → closed_have_timer (step e w).2.
Proof.
  intros He Hw.
  destruct e as [a|h|t|i p|i|toastId| |hd o|l|l| |s a]; cbn [step].
  - by apply dispatch_closed_have_timer.
  - by apply fire_closed_have_timer.
  - rewrite bind_run. cbn [mret M_ret snd]. by apply toast_closed_have_timer.
  - by apply dispatch_closed_have_timer.
  - by apply toast_dismiss_closed_have_timer.
  - unfold useToast_dismiss. rewrite bind_run.
    apply (dismiss_after_cancel w); [| |done].
    + destruct toastId as [i|]; [destruct (truthy _)|]; try done.
      apply removeFromRemoveQueue_keeps_memoryState.
    + intros j Hj. destruct toastId as [i|]; [destruct (truthy _)|]; try done.
      rewrite removeFromRemoveQueue_toastTimeouts.
      apply lookup_delete_ne. congruence.
  - by apply dispatch_closed_have_timer.
  - destruct hd as [i|k]; [destruct o|]; cbn [call_onOpenChange];
      first [done|by apply toast_dismiss_closed_have_timer].
  - done.
  - done.
  - apply Forall_forall. intros t Ht. by apply elem_of_nil in Ht.
  - rewrite bind_run. cbn [mret M_ret snd].
    apply (closed_have_timer_sub w); [| |done].
    + by rewrite reducer_keeps_memoryState.
    + intros t _ Hsome. destruct a as [o|i p|toastId|toastId|]; [| | | |done].
      * done.
      * destruct (reducer_UPDATE_world s i p w) as [r ->]. by destruct w.
      * apply elem_of_dom.
        rewrite (reducer_DISMISS_world toastTimeouts) by (by intros ? []).
        rewrite removals_dom. by apply elem_of_union_r, elem_of_dom.
      * by destruct toastId.
Qed.

Lemma run_closed_have_timer es w :
  Forall (λ e, tame e = true) es →
  closed_have_timer w → closed_have_timer (run es w).
Proof.
  revert w. induction es as [|e es IH]; intros w Hes Hw; [done|].
  apply Forall_cons in Hes as [He Hes].
  unfold run. cbn [forEach]. rewrite bind_run.
  apply IH; [done|]. by apply step_closed_have_timer.
Qed.

(** X21.  When a closed toast has its removal pending.  After a sequence of
    calls, dispatches, timer firings and calls of the reducer from outside,
    from the initial state, in which every toast is added by [toast], no
    update carries the [open] key and the reducer is not called from outside
    with [CLEAR_ALL_TOASTS], each toast of the store with [open = false] has
    an entry in the registry whose timer is pending at the host, with a
    callback that removes the toasts of that id.  (A call of the reducer from
    outside with [CLEAR_ALL_TOASTS] empties the registry and leaves the
    store as it is, so a closed toast is then left without a timer.) *)
Theorem closed_toast_has_timer (es : list Event) (t : ToasterToast) :
  Forall (λ e, tame e = true) es →
  t ∈ toasts (memoryState (run es init)) →
  open (props t) = Some false →
  ∃ h d, toastTimeouts (run es init) !! id (props t) = Some h
         ∧ timers (run es init) !! h = Some (d, id (props t)).
Proof.
  intros Hes Ht Hc.
  assert (closed_have_timer (run es init)) as Hw.
  { apply run_closed_have_timer; [done|]. constructor. }
  apply (proj1 (Forall_forall _ _) Hw t Ht) in Hc as [h Hh].
  destruct (backed_lookup (run es init) (id (props t)) h) as [d Hd];
    [|done|by exists h, d].
  by apply consistent_run, consistent_init.
Qed.

(** ** The further properties at concrete inputs *)

Lemma one_timer_per_id_witness :
  timers sample !! 1%positive = Some (5000%Z, "1")
  ∧ toastTimeouts sample !! "1" = Some 1%positive.
Proof.
  assert (timers sample !! 1%positive = Some (5000%Z, "1")) as Hh
    by (vm_compute; reflexivity).
  split; [exact Hh|].
  exact (proj2 (proj2 (one_timer_per_id
    [CallToast (plain "A" None); CallToast (plain "B" (Some 7000%Z))]
    1%positive 1%positive 5000%Z 5000%Z "1" Hh Hh))).
Defined.

Lemma registry_entry_is_pending_witness :
  toastTimeouts sample !! "2" = Some 2%positive
  ∧ ∃ d, timers sample !! 2%positive = Some (d, "2").
Proof.
  assert (toastTimeouts sample !! "2" = Some 2%positive) as Hr
    by (vm_compute; reflexivity).
  split; [exact Hr|].
  exact (registry_entry_is_pending
    [CallToast (plain "A" None); CallToast (plain "B" (Some 7000%Z))]
    "2" 2%positive Hr).
Defined.

Lemma auto_removal_witness :
  let t := plain "B" (Some 7000%Z) in
  timers (toast t init).2 !! 1%positive = Some (7000%Z, "1")
  ∧ toasts (memoryState (fire 1%positive (toast t init).2).2)
    = filter (λ o, id (props o) ≠ "1") (toasts (memoryState (toast t init).2)).
Proof.
  intros t.
  destruct (auto_removal t init) as (_ & H1 & _ & H2 & _).
  - vm_compute. discriminate.
  - split; [exact H1|exact H2].
Defined.

Lemma addToRemoveQueue_replaces_witness :
  consistent sample
  ∧ toastTimeouts (addToRemoveQueue "1" (Some 100%Z) sample).2
    = <["1" := 3%positive]> (toastTimeouts sample)
  ∧ timers (addToRemoveQueue "1" (Some 100%Z) sample).2 !! 3%positive
    = Some (100%Z, "1").
Proof.
  assert (consistent sample) as Hw
    by (apply (bool_decide_unpack _); vm_compute; exact I).
  destruct (addToRemoveQueue_replaces sample "1" (Some 100%Z)
              3%positive 100%Z "1" Hw)
    as [Hreg Hiff].
  split_and!; [exact Hw|exact Hreg|].
  apply Hiff. rewrite decide_True by reflexivity. split; reflexivity.
Defined.

Lemma removeFromRemoveQueue_cancels_witness :
  consistent sample
  ∧ toastTimeouts (removeFromRemoveQueue "1" sample).2
    = delete "1" (toastTimeouts sample)
  ∧ timers (removeFromRemoveQueue "1" sample).2 !! 2%positive
    = Some (7000%Z, "2").
Proof.
  assert (consistent sample) as Hw
    by (apply (bool_decide_unpack _); vm_compute; exact I).
  destruct (removeFromRemoveQueue_cancels sample "1" 2%positive 7000%Z "2" Hw)
    as (Hreg & Hiff & _).
  split_and!; [exact Hw|exact Hreg|].
  apply Hiff. split; [discriminate|vm_compute; reflexivity].
Defined.

Lemma toast_keeps_other_timers_witness :
  timers (toast (plain "C" None) sample).2 !! 1%positive = Some (5000%Z, "1").
Proof.
  apply (toast_keeps_other_timers
    [CallToast (plain "A" None); CallToast (plain "B" (Some 7000%Z))]
    (plain "C" None) 1%positive 5000%Z "1").
  - vm_compute. reflexivity.
  - vm_compute. discriminate.
Defined.

Lemma subscribe_unsubscribe_witness :
  (unsubscribe 7 (subscribe 7 sample).2).2 = sample.
Proof.
  apply (subscribe_unsubscribe sample 7).
  vm_compute. apply not_elem_of_nil.
Defined.

Lemma store_ids_distinct_witness :
  NoDup (ids (memoryState sample)).
Proof.
  apply (store_ids_distinct
    [CallToast (plain "A" None); CallToast (plain "B" (Some 7000%Z))]).
  - repeat constructor.
  - vm_compute. reflexivity.
Defined.

Lemma dismiss_closes_named_witness :
  ∃ t, toasts (memoryState sample) !! 1 = Some t
       ∧ ∃ t', toasts (memoryState
                         (dispatch (DISMISS_TOAST (Some "1")) sample).2)
               !! 1 = Some t'
               ∧ open (props t') = Some false
               ∧ title (props t') = title (props t).
Proof.
  eexists. split; [reflexivity|].
  edestruct (dismiss_closes_named sample "1" 1) as (_ & t' & Ht' & Hfields);
    [reflexivity|].
  exists t'. split; [exact Ht'|].
  rewrite decide_True in Hfields by reflexivity.
  destruct Hfields as (? & _ & ? & _). by split.
Defined.

Lemma dismiss_all_arms_each_witness :
  ∃ t, toasts (memoryState sample) !! 0 = Some t
       ∧ duration (props t) = Some 7000%Z
       ∧ ∃ h, toastTimeouts (dispatch (DISMISS_TOAST None) sample).2
                !! id (props t) = Some h
              ∧ timers (dispatch (DISMISS_TOAST None) sample).2 !! h
                = Some (7000%Z, id (props t)).
Proof.
  eexists. split; [reflexivity|]. split; [reflexivity|].
  eapply (dismiss_all_arms_each sample).
  - apply (bool_decide_unpack _). vm_compute. exact I.
  - apply (bool_decide_unpack _). vm_compute. exact I.
  - apply (list_elem_of_lookup_2 _ 0). reflexivity.
Defined.



Lemma closed_toast_has_timer_witness :
  let es := [CallToast (plain "A" (Some 0%Z)); CallDismiss "1"] in
  ∃ t, toasts (memoryState (run es init)) !! 0 = Some t
       ∧ open (props t) = Some false
       ∧ ∃ h d, toastTimeouts (run es init) !! id (props t) = Some h
                ∧ timers (run es init) !! h = Some (d, id (props t)).
Proof.
  intros es. eexists. split; [reflexivity|]. split; [reflexivity|].
  apply (closed_toast_has_timer es).
  - repeat constructor.
  - apply (list_elem_of_lookup_2 _ 0). reflexivity.
  - reflexivity.
Defined.


Lemma persistent_toast_witness :
  let t := plain "E" (Some 0%Z) in
  let es := [Fire 1%positive; CallDismiss "2";
             Dispatch (REMOVE_TOAST (Some "1"))] in
  timers (toast t sample).2 = timers sample
  ∧ created t sample
    ∈ toasts (memoryState (run (Fire <$> [1; 2; 3]%positive) (toast t sample).2))
  ∧ "3" ∈ ids (memoryState (run es (toast t sample).2)).
Proof.
  intros t es.
  destruct (persistent_toast t sample [1; 2; 3]%positive es)
    as (H1 & _ & _ & H2 & H3 & _).
  - reflexivity.
  - apply (bool_decide_unpack _). vm_compute. exact I.
  - apply (bool_decide_unpack _). vm_compute. exact I.
  - split_and!; [exact H1|exact H2|exact H3].
Defined.
